(** * GerryChain: partitions of a graph and their incremental updates

    A shallow embedding of [gerrychain/partition/partition.py]: the
    [Assignment] class (parts grouped by label), the [Partition] class
    (construction from scratch and from a parent, the updater cache) and
    [get_assignment].

    Python objects that are mutated in place and may be shared (the [parts]
    dict of an [Assignment]) live in a store and are named by their address;
    immutable objects (frozensets) are values that carry an identity tag.
    Methods are functions in a state-and-exception monad over that store. *)

From stdpp Require Import base decidable option list gmap strings.

Set Default Proof Using "Type*".
Set Warnings "-register-all,-clear-no-such-hyp".

(** ** Python dicts: insertion-ordered association lists *)

Section dict.
Context {K V : Type} `{EqDecision K}.

(** [d[k]]; [None] stands for the KeyError of a plain dict. *)
Fixpoint dict_get (d : list (K * V)) (k : K) : option V :=
  match d with
  | [] => None
  | (k', v) :: d' => if decide (k' = k) then Some v else dict_get d' k
  end.

(** [k in d] *)
Definition dict_mem (d : list (K * V)) (k : K) : bool :=
  match dict_get d k with Some _ => true | None => false end.

(** [d[k] = v]: an existing key keeps its position, a new key goes last. *)
Fixpoint dict_set (d : list (K * V)) (k : K) (v : V) : list (K * V) :=
  match d with
  | [] => [(k, v)]
  | (k', v') :: d' =>
      if decide (k' = k) then (k', v) :: d' else (k', v') :: dict_set d' k v
  end.

(** [d.keys()] *)
Definition dict_keys (d : list (K * V)) : list K := map fst d.

(** [d.update(other)] for the items of [other], in order. *)
Definition dict_update (d other : list (K * V)) : list (K * V) :=
  fold_left (fun acc kv => dict_set acc kv.1 kv.2) other d.

(** [dict(items)] *)
Definition dict_of_items (items : list (K * V)) : list (K * V) :=
  dict_update [] items.

End dict.

(** ** Errors, the store and the monad *)

(** What a failed subscript was looking for. *)
Inductive PyKey (Node Part : Type) : Type :=
  | KNode (node : Node)
  | KPart (part : Part)
  | KName (name : string).
Arguments KNode {Node Part} node.
Arguments KPart {Node Part} part.
Arguments KName {Node Part} name.

Inductive PyError (Node Part : Type) : Type :=
  | KeyError (key : PyKey Node Part)
  | TypeError (msg : string)
  | AttributeError (msg : string)
  | ValueError (msg : string)
  | OtherError (msg : string).
Arguments KeyError {Node Part} key.
Arguments TypeError {Node Part} msg.
Arguments AttributeError {Node Part} msg.
Arguments ValueError {Node Part} msg.
Arguments OtherError {Node Part} msg.

(** The outcome of a call: a value, or a raised exception. *)
Inductive Res (E A : Type) : Type :=
  | Ok (a : A)
  | Raise (e : E).
Arguments Ok {E A} a.
Arguments Raise {E A} e.

Section model.
Context {Node : Type} `{Countable Node}.
Context {Part : Type} `{EqDecision Part}.
Context {Value : Type}.

Abbreviation Err := (PyError Node Part).

(** A frozenset object: its identity and its elements.  No operation changes
    the elements of an existing frozenset; set algebra makes a new object. *)
Record FrozenSet : Type := mkFrozenSet {
  fs_id : nat;
  fs_elems : gset Node
}.

(** The [parts] dict of an [Assignment]: part label -> frozenset of nodes. *)
Definition PartsDict : Type := list (Part * FrozenSet).

(** The store: the mutable [parts] dicts by address, the next free object
    identity, and the trace of updater calls (partition identity, name) in
    the order they were made. *)
Record State : Type := mkState {
  st_dicts : list PartsDict;
  st_next_id : nat;
  st_calls : list (nat * string)
}.

Definition M (A : Type) : Type := State -> Res Err A * State.

Definition ret {A} (a : A) : M A := fun st => (Ok a, st).

Definition raise {A} (e : Err) : M A := fun st => (Raise e, st).

Definition bind {A B} (m : M A) (k : A -> M B) : M B :=
  fun st =>
    match m st with
    | (Ok a, st') => k a st'
    | (Raise e, st') => (Raise e, st')
    end.

Definition lift {A} (r : Res Err A) : M A := fun st => (r, st).

Definition get_state : M State := fun st => (Ok st, st).

Local Notation "x <- c1 ;; c2" := (bind c1 (fun x => c2))
  (at level 100, c1 at next level, right associativity).
Local Notation "c1 ;;; c2" := (bind c1 (fun _ => c2))
  (at level 100, right associativity).

(** The dict stored at an address.  Every reference a program holds is to an
    allocated object; outside the store the lookup yields the empty dict. *)
Definition deref (st : State) (l : nat) : PartsDict :=
  match st_dicts st !! l with
  | Some d => d
  | None => []
  end.

Definition read_dict (l : nat) : M PartsDict := fun st => (Ok (deref st l), st).

Definition write_dict (l : nat) (d : PartsDict) : M unit :=
  fun st => (Ok tt, mkState (<[l := d]> (st_dicts st)) (st_next_id st) (st_calls st)).

(** A new dict object holding [d]. *)
Definition alloc_dict (d : PartsDict) : M nat :=
  fun st =>
    (Ok (length (st_dicts st)),
     mkState (st_dicts st ++ [d]) (st_next_id st) (st_calls st)).

(** A new object identity. *)
Definition fresh_id : M nat :=
  fun st => (Ok (st_next_id st), mkState (st_dicts st) (S (st_next_id st)) (st_calls st)).

(** [frozenset(nodes)] and the results of [-] and [|]: new objects. *)
Definition new_frozenset (nodes : gset Node) : M FrozenSet :=
  i <- fresh_id ;; ret (mkFrozenSet i nodes).

Definition log_call (pid : nat) (name : string) : M unit :=
  fun st => (Ok tt, mkState (st_dicts st) (st_next_id st) (st_calls st ++ [(pid, name)])).

(** ** [level_sets] *)

(** [sets = defaultdict(set); for source, target in mapping.items():
    sets[target].add(source)], on the items of the mapping. *)
Definition level_sets_add (sets : list (Part * gset Node)) (item : Node * Part)
    : list (Part * gset Node) :=
  dict_set sets item.2 (default ∅ (dict_get sets item.2) ∪ {[ item.1 ]}).

Definition level_sets (items : list (Node * Part)) : list (Part * gset Node) :=
  fold_left level_sets_add items [].

(** ** class Assignment *)

(** An [Assignment] object: its one attribute, a reference to the dict. *)
Record Assignment : Type := mkAssignment { parts_ref : nat }.

(** [{part: frozenset(nodes) for part, nodes in ...}] *)
Fixpoint freeze_parts (sets : list (Part * gset Node)) : M PartsDict :=
  match sets with
  | [] => ret []
  | (part, nodes) :: rest =>
      fs <- new_frozenset nodes ;;
      d <- freeze_parts rest ;;
      ret ((part, fs) :: d)
  end.

Definition Assignment_from_dict (assignment : list (Node * Part)) : M Assignment :=
  parts <- freeze_parts (level_sets assignment) ;;
  l <- alloc_dict parts ;;
  ret (mkAssignment l).

(** The loop of [__getitem__] over [self.parts.items()]. *)
Fixpoint find_part (d : PartsDict) (node : Node) : option Part :=
  match d with
  | [] => None
  | (part, nodes) :: d' =>
      if decide (node ∈ fs_elems nodes) then Some part else find_part d' node
  end.

Definition Assignment_getitem (self : Assignment) (node : Node) : M Part :=
  d <- read_dict (parts_ref self) ;;
  match find_part d node with
  | Some part => ret part
  | None => raise (KeyError (KNode node))
  end.

(** [Assignment(self.parts.copy())]: a new dict, the same frozensets. *)
Definition Assignment_copy (self : Assignment) : M Assignment :=
  d <- read_dict (parts_ref self) ;;
  l <- alloc_dict d ;;
  ret (mkAssignment l).

(** What [items] yields, from the dict it runs over. *)
Definition parts_items (d : PartsDict) : list (Node * Part) :=
  flat_map (fun pn => map (fun node => (node, pn.1)) (elements (fs_elems pn.2))) d.

Definition Assignment_items (self : Assignment) : M (list (Node * Part)) :=
  d <- read_dict (parts_ref self) ;; ret (parts_items d).

(** [self.parts[part] = frozenset(nodes)] for each item of [new_parts]. *)
Fixpoint Assignment_update_parts (self : Assignment)
    (new_parts : list (Part * gset Node)) : M unit :=
  match new_parts with
  | [] => ret tt
  | (part, nodes) :: rest =>
      fs <- new_frozenset nodes ;;
      d <- read_dict (parts_ref self) ;;
      write_dict (parts_ref self) (dict_set d part fs) ;;;
      Assignment_update_parts self rest
  end.

(** ** Flows *)

(** The flow record of one part: [{"in": set(), "out": set()}]. *)
Record Flow : Type := mkFlow {
  flow_in : gset Node;
  flow_out : gset Node
}.

Definition Flows : Type := list (Part * Flow).

Definition create_flow : Flow := mkFlow ∅ ∅.

Definition flows_add_out (flows : Flows) (part : Part) (node : Node) : Flows :=
  let f := default create_flow (dict_get flows part) in
  dict_set flows part (mkFlow (flow_in f) (flow_out f ∪ {[ node ]})).

Definition flows_add_in (flows : Flows) (part : Part) (node : Node) : Flows :=
  let f := default create_flow (dict_get flows part) in
  dict_set flows part (mkFlow (flow_in f ∪ {[ node ]}) (flow_out f)).

(** Modelled from the spec: the loop of [flows_from_changes] (see below). *)
Fixpoint flows_from_changes_loop (old_assignment : Assignment)
    (flips : list (Node * Part)) (flows : Flows) : M Flows :=
  match flips with
  | [] => ret flows
  | (node, target) :: rest =>
      source <- Assignment_getitem old_assignment node ;;
      if decide (source = target) then
        flows_from_changes_loop old_assignment rest flows
      else
        flows_from_changes_loop old_assignment rest
          (flows_add_in (flows_add_out flows source node) target node)
  end.

(** Modelled from the spec: [flows_from_changes] of [gerrychain.updaters] is
    not in the source file.  Spec 4.2: for every node of the delta whose new
    part differs from the old assignment's part of it, the old part gains the
    node in its "out" set and the new part gains it in its "in" set; a node
    mapped to its current part is left out; a part without change is absent. *)
Definition flows_from_changes (old_assignment : Assignment)
    (flips : list (Node * Part)) : M Flows :=
  flows_from_changes_loop old_assignment flips [].

(** The loop of [update]:
    [self.parts[part] = (self.parts[part] - flow["out"]) | flow["in"]]. *)
Fixpoint apply_flows (self : Assignment) (flows : Flows) : M unit :=
  match flows with
  | [] => ret tt
  | (part, flow) :: rest =>
      d <- read_dict (parts_ref self) ;;
      match dict_get d part with
      | None => raise (KeyError (KPart part))
      | Some old =>
          diff <- new_frozenset (fs_elems old ∖ flow_out flow) ;;
          new <- new_frozenset (fs_elems diff ∪ flow_in flow) ;;
          write_dict (parts_ref self) (dict_set d part new) ;;;
          apply_flows self rest
      end
  end.

Definition Assignment_update (self : Assignment) (mapping : list (Node * Part)) : M unit :=
  flows <- flows_from_changes self mapping ;;
  apply_flows self flows.

(** ** The graph collaborator *)

(** Modelled from the spec: [gerrychain.graph.Graph] is not in the source
    file.  Spec 6: it exposes a node set, an edge set (pairs of node ids) and
    per-node attribute lookup. *)
Record Graph : Type := mkGraph {
  graph_nodes : list Node;
  graph_edges : list (Node * Node);
  graph_attrs : string -> Node -> option Part
}.

(** Modelled from the spec: the loop of [Graph.node_attribute] (see below). *)
Fixpoint node_attribute_loop (attrs : string -> Node -> option Part) (name : string)
    (nodes : list Node) (acc : list (Node * Part)) : Res Err (list (Node * Part)) :=
  match nodes with
  | [] => Ok acc
  | node :: rest =>
      match attrs name node with
      | None => Raise (KeyError (KName name))
      | Some part => node_attribute_loop attrs name rest (dict_set acc node part)
      end
  end.

(** Modelled from the spec: [Graph.node_attribute] is not in the source file.
    Spec 6: per-node attribute lookup, used to build an initial assignment
    from a named attribute; the mapping from every node to its value. *)
Definition node_attribute (g : Graph) (name : string) : Res Err (list (Node * Part)) :=
  node_attribute_loop (graph_attrs g) name (graph_nodes g) [].

(** ** [get_assignment] *)

(** The Python value passed as [assignment]. *)
Inductive AssignmentArg : Type :=
  | ArgNone
  | ArgStr (name : string)
  | ArgDict (d : list (Node * Part))
  | ArgAssignment (a : Assignment)
  | ArgOther (tag : nat).

Definition get_assignment (arg : AssignmentArg) (g : option Graph) : M Assignment :=
  match arg with
  | ArgStr name =>
      match g with
      | None => raise (AttributeError "node_attribute")
      | Some g => d <- lift (node_attribute g name) ;; Assignment_from_dict d
      end
  | ArgDict d => Assignment_from_dict d
  | ArgAssignment a => ret a
  | _ => raise (TypeError "Assignment must be a dict or a node attribute key")
  end.

(** ** class Partition *)

(** The attribute [parts]: the level sets while a root is being built, the
    tuple of their keys from then on. *)
Inductive PartsField : Type :=
  | PartsSets (sets : list (Part * gset Node))
  | PartsKeys (keys : list Part).

Definition EdgeFlows : Type := list (Node * Node).

(** The attributes of a [Partition] that an updater can read. *)
Inductive PartitionData : Type := mkPartitionData {
  p_id : nat;
  graph : option Graph;
  assignment : Assignment;
  parent : option PartitionData;
  flips : option (list (Node * Part));
  flows : option Flows;
  edge_flows : option EdgeFlows;
  parts : PartsField;
  _cache : list (string * Value)
}.

(** An updater function: it reads the store and the partition it is given. *)
Definition Updater : Type := State -> PartitionData -> Res Err Value.

Record Partition : Type := mkPartition {
  pdata : PartitionData;
  updaters : list (string * Updater)
}.

Definition default_updaters : list (string * Updater) := [].

Definition set_cache (self : PartitionData) (cache : list (string * Value)) : PartitionData :=
  mkPartitionData (p_id self) (graph self) (assignment self) (parent self)
    (flips self) (flows self) (edge_flows self) (parts self) cache.

Definition set_parts (self : PartitionData) (p : PartsField) : PartitionData :=
  mkPartitionData (p_id self) (graph self) (assignment self) (parent self)
    (flips self) (flows self) (edge_flows self) p (_cache self).

Definition set_edge_flows (self : PartitionData) (ef : option EdgeFlows) : PartitionData :=
  mkPartitionData (p_id self) (graph self) (assignment self) (parent self)
    (flips self) (flows self) ef (parts self) (_cache self).

(** [len(self.parts)] *)
Definition Partition_len (self : PartitionData) : nat :=
  match parts self with
  | PartsSets sets => length sets
  | PartsKeys keys => length keys
  end.

(** [if parent:] -- an object with [__len__] and no [__bool__] is true when
    its length is not zero, and [None] is false.  The result is the parent
    when the test holds. *)
Definition truthy (par : option Partition) : option Partition :=
  match par with
  | None => None
  | Some p => if Nat.eqb (Partition_len (pdata p)) 0 then None else Some p
  end.

(** [self.assignment[edge[0]] != self.assignment[edge[1]]] *)
Definition crosses (a : Assignment) (edge : Node * Node) : M bool :=
  p0 <- Assignment_getitem a edge.1 ;;
  p1 <- Assignment_getitem a edge.2 ;;
  ret (negb (bool_decide (p0 = p1))).

Definition Partition_crosses_parts (self : Partition) (edge : Node * Node) : M bool :=
  crosses (assignment (pdata self)) edge.

(** The nodes that changed part: the union of the "in" sets of a flow. *)
Definition changed_nodes (fl : Flows) : gset Node :=
  ⋃ (map (fun pf => flow_in pf.2) fl).

(** Modelled from the spec: the loop of [compute_edge_flows] (see below). *)
Fixpoint edge_flows_loop (old new : Assignment) (changed : gset Node)
    (es : list (Node * Node)) : M EdgeFlows :=
  match es with
  | [] => ret []
  | edge :: rest =>
      if decide (edge.1 ∈ changed ∨ edge.2 ∈ changed) then
        now <- crosses new edge ;;
        before <- crosses old edge ;;
        more <- edge_flows_loop old new changed rest ;;
        ret (if bool_decide (now = before) then more else edge :: more)
      else edge_flows_loop old new changed rest
  end.

(** Modelled from the spec: [compute_edge_flows] of [gerrychain.updaters] is
    not in the source file.  Spec 3 and 4.2: the graph edges incident to a
    node that changed part whose cross-part status differs from the one they
    had in the parent. *)
Definition compute_edge_flows (self : PartitionData) : M EdgeFlows :=
  match graph self, parent self with
  | Some g, Some par =>
      edge_flows_loop (assignment par) (assignment self)
        (changed_nodes (default [] (flows self))) (graph_edges g)
  | _, _ => raise (AttributeError "compute_edge_flows")
  end.

Definition Partition_first_time (pid : nat) (g : option Graph)
    (arg : AssignmentArg) (ups : option (list (string * Updater)))
    : M Partition :=
  a <- get_assignment arg g ;;
  let ups := match ups with None => [] | Some u => u end in
  let registry := dict_update default_updaters ups in
  items <- Assignment_items a ;;
  ret (mkPartition
         (mkPartitionData pid g a None None None None
            (PartsSets (level_sets items)) [])
         registry).

Definition Partition_from_parent (pid : nat) (par : Partition)
    (fl : option (list (Node * Part))) : M Partition :=
  a <- Assignment_copy (assignment (pdata par)) ;;
  match fl with
  | None => raise (AttributeError "items")
  | Some mapping =>
      Assignment_update a mapping ;;;
      fls <- flows_from_changes (assignment (pdata par)) mapping ;;
      let self :=
        mkPartitionData pid (graph (pdata par)) a (Some (pdata par))
          fl (Some fls) None (parts (pdata par)) [] in
      ef <- compute_edge_flows self ;;
      ret (mkPartition (set_edge_flows self (Some ef)) (updaters par))
  end.

(** [self._cache[key] = self.updaters[key](self)] *)
Definition call_updater (self : Partition) (key : string) : M Partition :=
  match dict_get (updaters self) key with
  | None => raise (KeyError (KName key))
  | Some f =>
      log_call (p_id (pdata self)) key ;;;
      st <- get_state ;;
      v <- lift (f st (pdata self)) ;;
      ret (mkPartition
             (set_cache (pdata self) (dict_set (_cache (pdata self)) key v))
             (updaters self))
  end.

(** The loop of [_update] over the keys of [self.updaters]. *)
Fixpoint update_loop (keys : list string) (self : Partition) : M Partition :=
  match keys with
  | [] => ret self
  | key :: rest =>
      if dict_mem (_cache (pdata self)) key then update_loop rest self
      else self' <- call_updater self key ;; update_loop rest self'
  end.

Definition Partition_update (self : Partition) : M Partition :=
  update_loop (dict_keys (updaters self))
    (mkPartition (set_cache (pdata self) []) (updaters self)).

(** [tuple(self.parts.keys())] *)
Definition parts_keys (p : PartsField) : Res Err PartsField :=
  match p with
  | PartsSets sets => Ok (PartsKeys (dict_keys sets))
  | PartsKeys _ => Raise (AttributeError "keys")
  end.

(** [Partition(graph, assignment, updaters, parent, flips)]: a new object,
    then [__init__]. *)
Definition Partition_init (g : option Graph) (arg : AssignmentArg)
    (ups : option (list (string * Updater))) (par : option Partition)
    (fl : option (list (Node * Part))) : M Partition :=
  pid <- fresh_id ;;
  match truthy par with
  | Some p =>
      self <- Partition_from_parent pid p fl ;;
      Partition_update self
  | None =>
      self <- Partition_first_time pid g arg ups ;;
      self <- Partition_update self ;;
      keys <- lift (parts_keys (parts (pdata self))) ;;
      ret (mkPartition (set_parts (pdata self) keys) (updaters self))
  end.

(** [self.__class__(parent=self, flips=flips)] *)
Definition Partition_merge (self : Partition) (fl : list (Node * Part)) : M Partition :=
  Partition_init None ArgNone None (Some self) (Some fl).

(** [partition[key]]: the value, and the partition with its cache. *)
Definition Partition_getitem (self : Partition) (key : string) : M (Value * Partition) :=
  self' <- (if dict_mem (_cache (pdata self)) key then ret self
            else call_updater self key) ;;
  match dict_get (_cache (pdata self')) key with
  | Some v => ret (v, self')
  | None => raise (KeyError (KName key))
  end.

(** ** Specification vocabulary *)

(** Node [node] is in the set that dict [d] holds for part [part]. *)
Definition in_part (d : PartsDict) (part : Part) (node : Node) : Prop :=
  exists fs, dict_get d part = Some fs /\ node ∈ fs_elems fs.

(** No node is in the sets of two parts. *)
Definition disjoint_parts (d : PartsDict) : Prop :=
  forall p q node, in_part d p node -> in_part d q node -> p = q.

(** A well-formed parts dict: a dict (no key twice) of disjoint sets. *)
Definition parts_ok (d : PartsDict) : Prop :=
  NoDup (dict_keys d) /\ disjoint_parts d.

(** The reference of an assignment is to an object of the store. *)
Definition allocated (st : State) (a : Assignment) : Prop :=
  parts_ref a < length (st_dicts st).

(** The dict of the assignment of a partition. *)
Definition parts_of (st : State) (P : Partition) : PartsDict :=
  deref st (parts_ref (assignment (pdata P))).

Definition partition_ok (st : State) (P : Partition) : Prop :=
  allocated st (assignment (pdata P)) /\ parts_ok (parts_of st P).

(** The sets of [d] partition [nodes]: every node of [nodes] is in the set of
    exactly one part, and the sets hold nothing else. *)
Definition partitions_nodes (d : PartsDict) (nodes : list Node) : Prop :=
  (forall node, node ∈ nodes ->
     exists p, in_part d p node /\ forall q, in_part d q node -> q = p)
  /\ (forall p node, in_part d p node -> node ∈ nodes).

(** The incremental path of [_from_parent]:
    [a = parent.assignment.copy(); a.update(flips)]. *)
Definition incremental (a : Assignment) (fl : list (Node * Part)) : M Assignment :=
  a' <- Assignment_copy a ;;
  Assignment_update a' fl ;;;
  ret a'.

(** The argument is a node attribute key, a dict or an [Assignment]. *)
Definition is_assignment_source (arg : AssignmentArg) : bool :=
  match arg with
  | ArgStr _ | ArgDict _ | ArgAssignment _ => true
  | ArgNone | ArgOther _ => false
  end.

(** [freeze_parts] on the identity counter it starts from. *)
Fixpoint freeze_on (sets : list (Part * gset Node)) (nid : nat) : PartsDict :=
  match sets with
  | [] => []
  | (part, nodes) :: rest => (part, mkFrozenSet nid nodes) :: freeze_on rest (S nid)
  end.

(** The full node-to-part mapping of [d] overridden with the delta:
    [full = dict(assignment.items()); full.update(flips)]. *)
Definition full_mapping (d : PartsDict) (fl : list (Node * Part)) : list (Node * Part) :=
  dict_update (dict_of_items (parts_items d)) fl.

(** The sets of a flow for a part; empty when the part is absent. *)
Definition flow_in_of (fls : Flows) (p : Part) : gset Node :=
  match dict_get fls p with Some f => flow_in f | None => ∅ end.

Definition flow_out_of (fls : Flows) (p : Part) : gset Node :=
  match dict_get fls p with Some f => flow_out f | None => ∅ end.

(** [flows_from_changes] on the dict the old assignment refers to. *)
Fixpoint flows_on (d : PartsDict) (fl : list (Node * Part)) (fls : Flows)
    : Res Err Flows :=
  match fl with
  | [] => Ok fls
  | (node, target) :: rest =>
      match find_part d node with
      | None => Raise (KeyError (KNode node))
      | Some source =>
          if decide (source = target) then flows_on d rest fls
          else flows_on d rest (flows_add_in (flows_add_out fls source node) target node)
      end
  end.

(** [apply_flows] on the dict and the identity counter it works with: the
    outcome, the dict and the counter it leaves. *)
Fixpoint apply_flows_on (fls : Flows) (d : PartsDict) (nid : nat)
    : Res Err unit * PartsDict * nat :=
  match fls with
  | [] => (Ok tt, d, nid)
  | (part, flow) :: rest =>
      match dict_get d part with
      | None => (Raise (KeyError (KPart part)), d, nid)
      | Some old =>
          apply_flows_on rest
            (dict_set d part
               (mkFrozenSet (S nid) ((fs_elems old ∖ flow_out flow) ∪ flow_in flow)))
            (S (S nid))
      end
  end.

(** Store [st'] is [st] with more objects, identities and calls: what [st]
    holds is still there, unchanged. *)
Definition extends (st st' : State) : Prop :=
  st_dicts st `prefix_of` st_dicts st' /\
  st_next_id st <= st_next_id st' /\
  st_calls st `prefix_of` st_calls st'.

(** How often updater [name] was called for the partition object [pid]. *)
Definition calls_of (pid : nat) (name : string) (calls : list (nat * string)) : nat :=
  length (filter (fun c => c = (pid, name)) calls).

(** One call of the public interface, from one store to the next. *)
Inductive api_step : State -> State -> Prop :=
  | step_init g arg ups par fl st r st' :
      Partition_init g arg ups par fl st = (r, st') -> api_step st st'
  | step_getitem P key st r st' :
      Partition_getitem P key st = (r, st') -> api_step st st'
  | step_crosses_parts P edge st r st' :
      Partition_crosses_parts P edge st = (r, st') -> api_step st st'.

(** The partitions over graph [g] that a caller can hold in a store: a root
    built from a total node-to-part mapping, the result of a merge whose
    delta mentions nodes of the graph and existing part labels only, and any
    of these after further calls of the interface. *)
Inductive reachable (g : Graph) : State -> Partition -> Prop :=
  | reach_root m ups st P st' :
      NoDup (dict_keys m) ->
      (forall node, node ∈ dict_keys m <-> node ∈ graph_nodes g) ->
      Partition_init (Some g) (ArgDict m) ups None None st = (Ok P, st') ->
      reachable g st' P
  | reach_merge P fl st P' st' :
      reachable g st P ->
      NoDup (dict_keys fl) ->
      (forall node p, (node, p) ∈ fl ->
         node ∈ graph_nodes g /\ p ∈ dict_keys (parts_of st P)) ->
      Partition_merge P fl st = (Ok P', st') ->
      reachable g st' P'
  | reach_later P st st' :
      reachable g st P ->
      api_step st st' ->
      reachable g st' P.

End model.

Arguments FrozenSet Node {_ _}.
Arguments PartsDict Node {_ _} Part.
Arguments State Node {_ _} Part.
Arguments M Node {_ _} Part A.
Arguments Flow Node {_ _}.
Arguments Flows Node {_ _} Part.
Arguments PartsField Node {_ _} Part.
Arguments PartitionData Node {_ _} Part Value.
Arguments Updater Node {_ _} Part Value.
Arguments Partition Node {_ _} Part Value.

(** ** The scenario of the spec *)

(** Nodes are numbers, part labels are strings, updater values are mappings
    from part label to a count. *)
Definition SizeValue : Type := list (string * nat).

Definition empty_store : State nat string := mkState [] 0 [].

(** Nodes [{1,2,3,4}], edges [{(1,2),(2,3),(3,4)}]. *)
Definition path_graph : @Graph nat string :=
  mkGraph [1; 2; 3; 4] [(1, 2); (2, 3); (3, 4)] (fun _ _ => None).

(** [{1: "A", 2: "A", 3: "B", 4: "B"}] *)
Definition initial_assignment : list (nat * string) :=
  [(1, "A"); (2, "A"); (3, "B"); (4, "B")]%string.

(** [{2: "B"}] *)
Definition flip_2_to_B : list (nat * string) := [(2, "B")]%string.

(** The spec's updater, [size = lambda p: {part: len(nodes) for part, nodes
    in p.parts.items()}]: it reads the attribute [parts] of the partition.
    A tuple has no [items]. *)
Definition size_from_parts : Updater nat string SizeValue :=
  fun _ p =>
    match parts p with
    | PartsSets sets => Ok (map (fun pn => (pn.1, size pn.2)) sets)
    | PartsKeys _ => Raise (AttributeError "'tuple' object has no attribute 'items'")
    end.

(** [lambda p: {part: len(nodes) for part, nodes in
    p.assignment.parts.items()}]: it reads the parts of the assignment. *)
Definition size_from_assignment : Updater nat string SizeValue :=
  fun st p =>
    Ok (map (fun pn => (pn.1, size (fs_elems pn.2)))
          (deref st (parts_ref (assignment p)))).

(** [Partition(path_graph, initial_assignment, updaters)] in the empty store. *)
Definition build_root (ups : option (list (string * Updater nat string SizeValue)))
    : Res (PyError nat string) (Partition nat string SizeValue) * State nat string :=
  Partition_init (Some path_graph) (ArgDict initial_assignment) ups None None empty_store.

(** [Partition(path_graph, initial_assignment, updaters).merge(fl)] *)
Definition build_child (ups : option (list (string * Updater nat string SizeValue)))
    (fl : list (nat * string))
    : Res (PyError nat string) (Partition nat string SizeValue) * State nat string :=
  match build_root ups with
  | (Ok root, st) => Partition_merge root fl st
  | (Raise e, st) => (Raise e, st)
  end.

(** A store with one assignment, [{"A": {1}}], and a flow whose record for
    ["A"] has node 1 on both sides. *)
Definition one_part_store : State nat string :=
  mkState [[("A"%string, mkFrozenSet 0 {[ 1 ]})]] 1 [].


(** * Facts *)

(** ** Dicts *)

Section dict_facts.
Context {K V : Type} `{EqDecision K}.
Implicit Types (d : list (K * V)) (k : K) (v : V).

Lemma dict_get_set_eq d k v : dict_get (dict_set d k v) k = Some v.
Proof.
  induction d as [|[k' v'] d IH]; simpl.
  - by rewrite decide_True.
  - destruct (decide (k' = k)) as [->|Hne]; simpl.
    + by rewrite decide_True.
    + by rewrite decide_False.
Qed.

Lemma dict_get_set_ne d k k' v :
  k <> k' -> dict_get (dict_set d k v) k' = dict_get d k'.
Proof.
  intros Hne. induction d as [|[k0 v0] d IH]; simpl.
  - by rewrite decide_False.
  - destruct (decide (k0 = k)) as [->|Hne0]; simpl.
    + by rewrite !decide_False.
    + by rewrite IH.
Qed.

Lemma dict_get_set d k k' v :
  dict_get (dict_set d k v) k' = if decide (k = k') then Some v else dict_get d k'.
Proof.
  destruct (decide (k = k')) as [->|Hne].
  - apply dict_get_set_eq.
  - by apply dict_get_set_ne.
Qed.

Lemma dict_get_None d k : dict_get d k = None <-> k ∉ dict_keys d.
Proof.
  induction d as [|[k' v'] d IH]; simpl.
  - split; [intros _; apply not_elem_of_nil | done].
  - rewrite not_elem_of_cons. destruct (decide (k' = k)) as [->|Hne].
    + split; [done | intros [? _]; done].
    + rewrite IH. split; [intros ?; split; [congruence | done] | intros [_ ?]; done].
Qed.

Lemma dict_get_Some_keys d k v : dict_get d k = Some v -> k ∈ dict_keys d.
Proof.
  intros Hget. destruct (decide (k ∈ dict_keys d)) as [|Hnot]; [done|].
  apply dict_get_None in Hnot. congruence.
Qed.

Lemma dict_get_is_Some d k : is_Some (dict_get d k) <-> k ∈ dict_keys d.
Proof.
  split.
  - intros [v Hv]. by eapply dict_get_Some_keys.
  - intros Hin. destruct (dict_get d k) eqn:E; [by eexists|].
    apply dict_get_None in E. done.
Qed.

Lemma dict_get_Some_elem d k v : dict_get d k = Some v -> (k, v) ∈ d.
Proof.
  induction d as [|[k' v'] d IH]; simpl; [done|].
  destruct (decide (k' = k)) as [->|Hne].
  - intros [= ->]. apply list_elem_of_here.
  - intros Hget. apply list_elem_of_further. by apply IH.
Qed.

Lemma dict_elem_get d k v :
  NoDup (dict_keys d) -> (k, v) ∈ d -> dict_get d k = Some v.
Proof.
  induction d as [|[k' v'] d IH]; simpl.
  - intros _ Hin. by apply elem_of_nil in Hin.
  - intros Hnd Hin. apply NoDup_cons in Hnd as [Hnot Hnd].
    apply elem_of_cons in Hin as [[= -> ->]|Hin].
    + by rewrite decide_True.
    + rewrite decide_False; [by apply IH|].
      intros ->. apply Hnot. unfold dict_keys.
      apply list_elem_of_fmap. by exists (k, v).
Qed.

Lemma dict_keys_set d k v :
  dict_keys (dict_set d k v) =
  if dict_mem d k then dict_keys d else dict_keys d ++ [k].
Proof.
  unfold dict_mem. induction d as [|[k' v'] d IH]; simpl; [done|].
  destruct (decide (k' = k)) as [->|Hne]; simpl; [done|].
  rewrite IH. by destruct (dict_get d k).
Qed.

Lemma dict_keys_set_in d k v :
  k ∈ dict_keys d -> dict_keys (dict_set d k v) = dict_keys d.
Proof.
  intros Hin. rewrite dict_keys_set. unfold dict_mem.
  apply dict_get_is_Some in Hin as [v' ->]. done.
Qed.

Lemma dict_keys_set_elem d k k' v :
  k' ∈ dict_keys (dict_set d k v) <-> k' = k \/ k' ∈ dict_keys d.
Proof.
  rewrite dict_keys_set. unfold dict_mem.
  destruct (dict_get d k) eqn:E.
  - apply dict_get_Some_keys in E. split; [by right | intros [->|]; done].
  - rewrite elem_of_app, list_elem_of_singleton. tauto.
Qed.

Lemma dict_set_NoDup d k v :
  NoDup (dict_keys d) -> NoDup (dict_keys (dict_set d k v)).
Proof.
  intros Hnd. rewrite dict_keys_set. unfold dict_mem.
  destruct (dict_get d k) eqn:E; [done|].
  apply dict_get_None in E. apply NoDup_app. split_and!; [done| |apply NoDup_singleton].
  intros x Hx Hk. apply list_elem_of_singleton in Hk as ->. done.
Qed.

Lemma dict_update_NoDup d other :
  NoDup (dict_keys d) -> NoDup (dict_keys (dict_update d other)).
Proof.
  unfold dict_update. revert d.
  induction other as [|[k v] other IH]; intros d Hnd; simpl; [done|].
  apply IH. by apply dict_set_NoDup.
Qed.

Lemma dict_update_keys d other k :
  k ∈ dict_keys (dict_update d other) <-> k ∈ dict_keys d \/ k ∈ dict_keys other.
Proof.
  unfold dict_update. revert d.
  induction other as [|[k0 v0] other IH]; intros d; simpl.
  - split; [by left | intros [|Hin]; [done | by apply elem_of_nil in Hin]].
  - rewrite IH, dict_keys_set_elem, elem_of_cons. tauto.
Qed.

Lemma dict_update_get d other k :
  NoDup (dict_keys other) ->
  dict_get (dict_update d other) k =
  match dict_get other k with Some v => Some v | None => dict_get d k end.
Proof.
  unfold dict_update. revert d.
  induction other as [|[k0 v0] other IH]; intros d Hnd; simpl in *; [done|].
  apply NoDup_cons in Hnd as [Hnot Hnd]. rewrite IH by done.
  destruct (decide (k0 = k)) as [->|Hne].
  - apply dict_get_None in Hnot. rewrite Hnot. apply dict_get_set_eq.
  - destruct (dict_get other k); [done|]. by apply dict_get_set_ne.
Qed.

Lemma dict_of_items_NoDup (items : list (K * V)) :
  NoDup (dict_keys (dict_of_items items)).
Proof. apply dict_update_NoDup. apply NoDup_nil_2. Qed.

(** The binding [dict(items)] holds for a key is one of the items. *)
Lemma dict_update_get_elem d other k v :
  dict_get (dict_update d other) k = Some v ->
  (k, v) ∈ other \/ dict_get d k = Some v.
Proof.
  unfold dict_update. revert d.
  induction other as [|[k0 v0] other IH]; intros d; simpl; [by right|].
  intros Hget. apply IH in Hget as [Hin|Hget].
  - left. by apply list_elem_of_further.
  - rewrite dict_get_set in Hget. destruct (decide (k0 = k)) as [->|Hne].
    + injection Hget as ->. left. apply list_elem_of_here.
    + by right.
Qed.

End dict_facts.

Section facts.
Context {Node : Type} `{Countable Node}.
Context {Part : Type} `{EqDecision Part}.
Context {Value : Type}.
Implicit Types (st : State Node Part) (d : PartsDict Node Part).
Implicit Types (a self : Assignment) (P : Partition Node Part Value).
Implicit Types (node n : Node) (p q part : Part).
Implicit Types (fl : list (Node * Part)) (fls : Flows Node Part).
Implicit Types (sets : list (Part * gset Node)).
Implicit Types (par : option (Partition Node Part Value)).
Implicit Types (ups : option (list (string * Updater Node Part Value))).
Implicit Types (ofl : option (list (Node * Part))).

(** ** [level_sets] *)

Lemma level_sets_fold_elem (items : list (Node * Part)) sets p n :
  n ∈ default ∅ (dict_get (fold_left level_sets_add items sets) p) <->
  n ∈ default ∅ (dict_get sets p) \/ (n, p) ∈ items.
Proof.
  revert sets. induction items as [|[n0 p0] items IH]; intros sets; simpl.
  - split; [by left | intros [|Hin]; [done | by apply elem_of_nil in Hin]].
  - rewrite IH. unfold level_sets_add at 1. simpl.
    rewrite dict_get_set, elem_of_cons.
    destruct (decide (p0 = p)) as [->|Hne]; simpl.
    + rewrite elem_of_union, elem_of_singleton.
      split; [intros [[?| ->]|?]|intros [?|[[= ->]|?]]]; tauto.
    + split; [intros [|]|intros [|[[= ? ?]|]]]; try tauto. congruence.
Qed.

Lemma level_sets_elem (items : list (Node * Part)) p n :
  n ∈ default ∅ (dict_get (level_sets items) p) <-> (n, p) ∈ items.
Proof.
  unfold level_sets. rewrite level_sets_fold_elem. simpl.
  split; [intros [Hin|]; [by apply not_elem_of_empty in Hin | done] | by right].
Qed.

Lemma level_sets_fold_NoDup (items : list (Node * Part)) sets :
  NoDup (dict_keys sets) -> NoDup (dict_keys (fold_left level_sets_add items sets)).
Proof.
  revert sets. induction items as [|[n0 p0] items IH]; intros sets Hnd; simpl; [done|].
  apply IH. by apply dict_set_NoDup.
Qed.

Lemma level_sets_NoDup (items : list (Node * Part)) :
  NoDup (dict_keys (level_sets items)).
Proof. apply level_sets_fold_NoDup. apply NoDup_nil_2. Qed.

Lemma level_sets_fold_keys (items : list (Node * Part)) sets p :
  p ∈ dict_keys (fold_left level_sets_add items sets) <->
  p ∈ dict_keys sets \/ p ∈ dict_keys (map (fun np => (np.2, np.1)) items).
Proof.
  revert sets. induction items as [|[n0 p0] items IH]; intros sets; simpl.
  - split; [by left | intros [|Hin]; [done | by apply elem_of_nil in Hin]].
  - rewrite IH. unfold level_sets_add at 1. simpl.
    rewrite dict_keys_set_elem, elem_of_cons. tauto.
Qed.

(** ** [from_dict] *)

Lemma freeze_parts_run sets st :
  freeze_parts sets st =
  (Ok (freeze_on sets (st_next_id st)),
   mkState (st_dicts st) (st_next_id st + length sets) (st_calls st)).
Proof.
  revert st. induction sets as [|[p nodes] sets IH]; intros st; simpl.
  - unfold ret. destruct st; simpl. by rewrite Nat.add_0_r.
  - unfold bind, new_frozenset, bind, fresh_id, ret. simpl. rewrite IH. simpl.
    do 3 f_equal. lia.
Qed.

Lemma freeze_on_keys sets nid : dict_keys (freeze_on sets nid) = dict_keys sets.
Proof.
  revert nid. induction sets as [|[p nodes] sets IH]; intros nid; simpl; [done|].
  by rewrite IH.
Qed.

Lemma freeze_on_get sets nid p :
  fs_elems <$> dict_get (freeze_on sets nid) p = dict_get sets p.
Proof.
  revert nid. induction sets as [|[p0 nodes] sets IH]; intros nid; simpl; [done|].
  destruct (decide (p0 = p)); [done | apply IH].
Qed.

Lemma freeze_on_ids sets nid p fs :
  dict_get (freeze_on sets nid) p = Some fs -> nid <= fs_id fs.
Proof.
  revert nid. induction sets as [|[p0 nodes] sets IH]; intros nid; simpl; [done|].
  destruct (decide (p0 = p)).
  - intros [= <-]. simpl. lia.
  - intros Hget. apply IH in Hget. lia.
Qed.

Lemma in_part_freeze_on sets nid p n :
  in_part (freeze_on sets nid) p n <-> n ∈ default ∅ (dict_get sets p).
Proof.
  unfold in_part. rewrite <- (freeze_on_get sets nid p).
  destruct (dict_get (freeze_on sets nid) p) as [fs|]; simpl.
  - split; [intros (fs' & [= <-] & Hin); done | intros Hin; by exists fs].
  - split; [intros (fs' & [=] & _) | intros Hin; by apply not_elem_of_empty in Hin].
Qed.

Lemma Assignment_from_dict_run (m : list (Node * Part)) st :
  Assignment_from_dict m st =
  (Ok (mkAssignment (length (st_dicts st))),
   mkState (st_dicts st ++ [freeze_on (level_sets m) (st_next_id st)])
     (st_next_id st + length (level_sets m)) (st_calls st)).
Proof.
  unfold Assignment_from_dict, bind. rewrite freeze_parts_run. done.
Qed.

Lemma deref_alloc st d :
  deref (mkState (st_dicts st ++ [d]) (st_next_id st) (st_calls st))
    (length (st_dicts st)) = d.
Proof.
  unfold deref. simpl. by rewrite list_lookup_middle.
Qed.

(** ** Lookup of a node *)

Lemma find_part_Some_elem d n p :
  find_part d n = Some p -> exists fs, (p, fs) ∈ d /\ n ∈ fs_elems fs.
Proof.
  induction d as [|[p0 fs0] d IH]; simpl; [done|].
  destruct (decide (n ∈ fs_elems fs0)) as [Hin|Hnot].
  - intros [= <-]. exists fs0. split; [apply list_elem_of_here | done].
  - intros Hfind. destruct (IH Hfind) as (fs & Hel & Hin).
    exists fs. split; [by apply list_elem_of_further | done].
Qed.

Lemma find_part_None d n :
  find_part d n = None <-> forall p fs, (p, fs) ∈ d -> n ∉ fs_elems fs.
Proof.
  induction d as [|[p0 fs0] d IH]; simpl.
  - split; [intros _ p fs Hin; by apply elem_of_nil in Hin | done].
  - destruct (decide (n ∈ fs_elems fs0)) as [Hin|Hnot].
    + split; [done|]. intros Hall. exfalso.
      apply (Hall p0 fs0); [apply list_elem_of_here | done].
    + rewrite IH. split.
      * intros Hall p fs Hel. apply elem_of_cons in Hel as [[= -> ->]|Hel]; [done|].
        by eapply Hall.
      * intros Hall p fs Hel. eapply Hall. by apply list_elem_of_further.
Qed.

Lemma find_part_in_part d n p :
  NoDup (dict_keys d) -> find_part d n = Some p -> in_part d p n.
Proof.
  intros Hnd Hfind. destruct (find_part_Some_elem _ _ _ Hfind) as (fs & Hel & Hin).
  exists fs. split; [by apply dict_elem_get | done].
Qed.

Lemma in_part_find_part d n p :
  parts_ok d -> in_part d p n -> find_part d n = Some p.
Proof.
  intros [Hnd Hdis] Hin. destruct (find_part d n) as [q|] eqn:Hfind.
  - f_equal. eapply Hdis; [by apply find_part_in_part | done].
  - destruct Hin as (fs & Hget & Hin). exfalso.
    eapply find_part_None; [done | by apply dict_get_Some_elem | done].
Qed.

Lemma find_part_iff d n p :
  parts_ok d -> find_part d n = Some p <-> in_part d p n.
Proof.
  intros Hok. split; [apply find_part_in_part, Hok | by apply in_part_find_part].
Qed.

Lemma find_part_None_in_part d n :
  NoDup (dict_keys d) ->
  find_part d n = None <-> forall p, ~ in_part d p n.
Proof.
  intros Hnd. split.
  - intros Hnone p (fs & Hget & Hin).
    eapply find_part_None; [done | by apply dict_get_Some_elem | done].
  - intros Hall. destruct (find_part d n) as [q|] eqn:Hfind; [|done].
    exfalso. apply (Hall q). by apply find_part_in_part.
Qed.

(** ** Flows *)

Lemma Assignment_getitem_run a n st :
  Assignment_getitem a n st =
  (match find_part (deref st (parts_ref a)) n with
   | Some p => Ok p
   | None => Raise (KeyError (KNode n))
   end, st).
Proof.
  unfold Assignment_getitem, bind, read_dict.
  by destruct (find_part (deref st (parts_ref a)) n).
Qed.

Lemma flows_from_changes_loop_run a fl fls st :
  flows_from_changes_loop a fl fls st = (flows_on (deref st (parts_ref a)) fl fls, st).
Proof.
  revert fls. induction fl as [|[n t] fl IH]; intros fls; simpl; [done|].
  unfold bind. rewrite Assignment_getitem_run.
  destruct (find_part (deref st (parts_ref a)) n) as [s|]; [|done].
  destruct (decide (s = t)); apply IH.
Qed.

Lemma flows_from_changes_run a fl st :
  flows_from_changes a fl st = (flows_on (deref st (parts_ref a)) fl [], st).
Proof. apply flows_from_changes_loop_run. Qed.

Lemma flow_in_of_add_in fls p n q :
  flow_in_of (flows_add_in fls p n) q =
  if decide (p = q) then flow_in_of fls q ∪ {[ n ]} else flow_in_of fls q.
Proof.
  unfold flow_in_of, flows_add_in. rewrite dict_get_set.
  destruct (decide (p = q)) as [->|]; [|done].
  by destruct (dict_get fls q).
Qed.

Lemma flow_out_of_add_in fls p n q :
  flow_out_of (flows_add_in fls p n) q = flow_out_of fls q.
Proof.
  unfold flow_out_of, flows_add_in. rewrite dict_get_set.
  destruct (decide (p = q)) as [->|]; [|done].
  by destruct (dict_get fls q).
Qed.

Lemma flow_out_of_add_out fls p n q :
  flow_out_of (flows_add_out fls p n) q =
  if decide (p = q) then flow_out_of fls q ∪ {[ n ]} else flow_out_of fls q.
Proof.
  unfold flow_out_of, flows_add_out. rewrite dict_get_set.
  destruct (decide (p = q)) as [->|]; [|done].
  by destruct (dict_get fls q).
Qed.

Lemma flow_in_of_add_out fls p n q :
  flow_in_of (flows_add_out fls p n) q = flow_in_of fls q.
Proof.
  unfold flow_in_of, flows_add_out. rewrite dict_get_set.
  destruct (decide (p = q)) as [->|]; [|done].
  by destruct (dict_get fls q).
Qed.

Lemma flows_on_out d fl fls0 fls :
  flows_on d fl fls0 = Ok fls ->
  forall p n,
    n ∈ flow_out_of fls p <->
    n ∈ flow_out_of fls0 p \/
    exists t, (n, t) ∈ fl /\ find_part d n = Some p /\ p <> t.
Proof.
  revert fls0. induction fl as [|[n0 t0] fl IH]; intros fls0; simpl.
  - intros [= <-] p n. split; [by left|].
    intros [|(t & Hin & _)]; [done | by apply elem_of_nil in Hin].
  - destruct (find_part d n0) as [s|] eqn:Hs; [|done].
    destruct (decide (s = t0)) as [->|Hne]; intros Hfl p n.
    + rewrite (IH _ Hfl). split.
      * intros [?|(t & Hin & ?)]; [by left|].
        right. exists t. split; [by apply list_elem_of_further | done].
      * intros [?|(t & Hin & Hp & Hpt)]; [by left|].
        apply elem_of_cons in Hin as [[= -> ->]|Hin]; [congruence|].
        right. by exists t.
    + rewrite (IH _ Hfl), flow_out_of_add_in, flow_out_of_add_out. split.
      * intros [Hin|(t & Hin & ?)].
        -- destruct (decide (s = p)) as [->|]; [|by left].
           apply elem_of_union in Hin as [?|Hin]; [by left|].
           apply elem_of_singleton in Hin as ->.
           right. exists t0. split; [apply list_elem_of_here | done].
        -- right. exists t. split; [by apply list_elem_of_further | done].
      * intros [?|(t & Hin & Hp & Hpt)].
        -- left. destruct (decide (s = p)); [apply elem_of_union; by left | done].
        -- apply elem_of_cons in Hin as [[= -> ->]|Hin].
           ++ left. rewrite Hs in Hp. injection Hp as ->.
              rewrite decide_True by done. apply elem_of_union. right.
              by apply elem_of_singleton.
           ++ right. by exists t.
Qed.

Lemma flows_on_in d fl fls0 fls :
  flows_on d fl fls0 = Ok fls ->
  forall p n,
    n ∈ flow_in_of fls p <->
    n ∈ flow_in_of fls0 p \/
    ((n, p) ∈ fl /\ exists s, find_part d n = Some s /\ s <> p).
Proof.
  revert fls0. induction fl as [|[n0 t0] fl IH]; intros fls0; simpl.
  - intros [= <-] p n. split; [by left|].
    intros [|[Hin _]]; [done | by apply elem_of_nil in Hin].
  - destruct (find_part d n0) as [s|] eqn:Hs; [|done].
    destruct (decide (s = t0)) as [->|Hne]; intros Hfl p n.
    + rewrite (IH _ Hfl). split.
      * intros [?|[Hin ?]]; [by left|].
        right. split; [by apply list_elem_of_further | done].
      * intros [?|[Hin (s' & Hs' & Hne)]]; [by left|].
        apply elem_of_cons in Hin as [[= -> ->]|Hin]; [congruence|].
        right. split; [done | by exists s'].
    + rewrite (IH _ Hfl), flow_in_of_add_in, flow_in_of_add_out. split.
      * intros [Hin|[Hin ?]].
        -- destruct (decide (t0 = p)) as [->|]; [|by left].
           apply elem_of_union in Hin as [?|Hin]; [by left|].
           apply elem_of_singleton in Hin as ->.
           right. split; [apply list_elem_of_here | by exists s].
        -- right. split; [by apply list_elem_of_further | done].
      * intros [?|[Hin (s' & Hs' & Hne')]].
        -- left. destruct (decide (t0 = p)); [apply elem_of_union; by left | done].
        -- apply elem_of_cons in Hin as [[= -> ->]|Hin].
           ++ left. rewrite decide_True by done. apply elem_of_union. right.
              by apply elem_of_singleton.
           ++ right. split; [done | by exists s'].
Qed.

Lemma flows_add_keys_NoDup fls p n :
  NoDup (dict_keys fls) ->
  NoDup (dict_keys (flows_add_in fls p n)) /\ NoDup (dict_keys (flows_add_out fls p n)).
Proof. intros Hnd. split; by apply dict_set_NoDup. Qed.

Lemma flows_on_NoDup d fl fls0 fls :
  flows_on d fl fls0 = Ok fls -> NoDup (dict_keys fls0) -> NoDup (dict_keys fls).
Proof.
  revert fls0. induction fl as [|[n0 t0] fl IH]; intros fls0; simpl.
  - by intros [= <-].
  - destruct (find_part d n0) as [s|]; [|done].
    destruct (decide (s = t0)); intros Hfl Hnd; [by eapply IH|].
    eapply IH; [done|]. by apply dict_set_NoDup, dict_set_NoDup.
Qed.

Lemma flows_on_keys d fl fls0 fls :
  flows_on d fl fls0 = Ok fls ->
  forall q,
    q ∈ dict_keys fls <->
    q ∈ dict_keys fls0 \/
    exists n s t, (n, t) ∈ fl /\ find_part d n = Some s /\ s <> t /\ (q = s \/ q = t).
Proof.
  revert fls0. induction fl as [|[n0 t0] fl IH]; intros fls0; simpl.
  - intros [= <-] q. split; [by left|].
    intros [|(n & s & t & Hin & _)]; [done | by apply elem_of_nil in Hin].
  - destruct (find_part d n0) as [s0|] eqn:Hs; [|done].
    destruct (decide (s0 = t0)) as [->|Hne]; intros Hfl q.
    + rewrite (IH _ Hfl). split.
      * intros [?|(n & s & t & Hin & ?)]; [by left|].
        right. exists n, s, t. split; [by apply list_elem_of_further | done].
      * intros [?|(n & s & t & Hin & Hfind & Hst & Hq)]; [by left|].
        apply elem_of_cons in Hin as [[= -> ->]|Hin]; [congruence|].
        right. by exists n, s, t.
    + rewrite (IH _ Hfl). unfold flows_add_in, flows_add_out.
      rewrite !dict_keys_set_elem. split.
      * intros [[->|[->|?]]|(n & s & t & Hin & ?)].
        -- right. exists n0, s0, t0. split; [apply list_elem_of_here | auto].
        -- right. exists n0, s0, t0. split; [apply list_elem_of_here | auto].
        -- by left.
        -- right. exists n, s, t. split; [by apply list_elem_of_further | done].
      * intros [?|(n & s & t & Hin & Hfind & Hst & Hq)]; [left; auto|].
        apply elem_of_cons in Hin as [[= -> ->]|Hin].
        -- left. rewrite Hs in Hfind. injection Hfind as ->.
           destruct Hq as [->| ->]; auto.
        -- right. by exists n, s, t.
Qed.

Lemma flows_on_Ok d fl fls0 :
  (forall n t, (n, t) ∈ fl -> is_Some (find_part d n)) ->
  exists fls, flows_on d fl fls0 = Ok fls.
Proof.
  revert fls0. induction fl as [|[n0 t0] fl IH]; intros fls0 Hall; simpl.
  - by eexists.
  - destruct (Hall n0 t0) as [s ->]; [apply list_elem_of_here|].
    destruct (decide (s = t0)) as [Hst|Hst]; apply IH; intros n t Hin;
      eapply Hall; by apply list_elem_of_further.
Qed.

Lemma flows_on_Ok_inv d fl fls0 fls :
  flows_on d fl fls0 = Ok fls ->
  forall n t, (n, t) ∈ fl -> is_Some (find_part d n).
Proof.
  revert fls0. induction fl as [|[n0 t0] fl IH]; intros fls0; simpl.
  - intros _ n t Hin. by apply elem_of_nil in Hin.
  - destruct (find_part d n0) as [s|] eqn:Hs; [|done].
    intros Hfl n t Hin. apply elem_of_cons in Hin as [[= -> ->]|Hin].
    + by rewrite Hs.
    + destruct (decide (s = t0)) as [Hst|Hst]; by eapply IH.
Qed.

Lemma flows_on_Raise d fl fls0 e :
  flows_on d fl fls0 = Raise e ->
  exists n t, (n, t) ∈ fl /\ find_part d n = None /\ e = KeyError (KNode n).
Proof.
  revert fls0. induction fl as [|[n0 t0] fl IH]; intros fls0; simpl; [done|].
  destruct (find_part d n0) as [s|] eqn:Hs.
  - intros Hfl.
    assert (exists fls1, flows_on d fl fls1 = Raise e) as [fls1 Hfl1].
    { destruct (decide (s = t0)) as [Hst|Hst]; by eexists. }
    destruct (IH _ Hfl1) as (n & t & Hin & ?).
    exists n, t. split; [by apply list_elem_of_further | done].
  - intros [= <-]. exists n0, t0. split; [apply list_elem_of_here | done].
Qed.

(** ** Applying a flow *)

Lemma deref_lookup st l d : st_dicts st !! l = Some d -> deref st l = d.
Proof. unfold deref. by intros ->. Qed.

Lemma deref_insert st l d nid calls :
  l < length (st_dicts st) ->
  deref (mkState (<[l := d]> (st_dicts st)) nid calls) l = d.
Proof. intros Hl. unfold deref. simpl. by rewrite list_lookup_insert_eq. Qed.

Lemma insert_deref st l :
  l < length (st_dicts st) -> <[l := deref st l]> (st_dicts st) = st_dicts st.
Proof.
  intros Hl. apply list_insert_id. unfold deref.
  destruct (st_dicts st !! l) as [d|] eqn:E; [done|].
  apply lookup_ge_None in E. lia.
Qed.

Lemma apply_flows_run l fls st :
  l < length (st_dicts st) ->
  apply_flows (mkAssignment l) fls st =
  (let '(r, d', nid') := apply_flows_on fls (deref st l) (st_next_id st) in
   (r, mkState (<[l := d']> (st_dicts st)) nid' (st_calls st))).
Proof.
  revert st. induction fls as [|[p f] fls IH]; intros st Hl; simpl.
  - unfold ret. rewrite insert_deref by done. by destruct st.
  - unfold bind, read_dict. simpl.
    destruct (dict_get (deref st l) p) as [old|] eqn:Hold.
    + unfold new_frozenset, bind, fresh_id, ret, write_dict. simpl.
      rewrite IH by (simpl; by rewrite length_insert). simpl.
      rewrite deref_insert by done.
      destruct (apply_flows_on fls _ _) as [[r d'] nid'].
      by rewrite list_insert_insert_eq.
    + unfold raise. rewrite insert_deref by done. by destruct st.
Qed.

Lemma apply_flows_on_keys fls d nid r d' nid' :
  apply_flows_on fls d nid = (r, d', nid') -> dict_keys d' = dict_keys d.
Proof.
  revert d nid. induction fls as [|[p f] fls IH]; intros d nid; simpl.
  - by intros [= _ <- _].
  - destruct (dict_get d p) as [old|] eqn:Hold; [|by intros [= _ <- _]].
    intros Happ. rewrite (IH _ _ Happ).
    apply dict_keys_set_in. by eapply dict_get_Some_keys.
Qed.

Lemma apply_flows_on_id fls d nid r d' nid' :
  apply_flows_on fls d nid = (r, d', nid') -> nid <= nid'.
Proof.
  revert d nid. induction fls as [|[p f] fls IH]; intros d nid; simpl.
  - intros [= _ _ <-]. lia.
  - destruct (dict_get d p) as [old|]; [|intros [= _ _ <-]; lia].
    intros Happ. apply IH in Happ. lia.
Qed.

Lemma apply_flows_on_Ok fls d nid :
  (forall p, p ∈ dict_keys fls -> p ∈ dict_keys d) ->
  exists d' nid', apply_flows_on fls d nid = (Ok tt, d', nid').
Proof.
  revert d nid. induction fls as [|[p f] fls IH]; intros d nid Hall; simpl.
  - by eexists _, _.
  - destruct (dict_get d p) as [old|] eqn:Hold.
    + apply IH. intros q Hq. apply dict_keys_set_elem. right.
      apply Hall. by apply list_elem_of_further.
    + apply dict_get_None in Hold. exfalso. apply Hold, Hall, list_elem_of_here.
Qed.

Lemma apply_flows_on_Ok_inv fls d nid d' nid' :
  apply_flows_on fls d nid = (Ok tt, d', nid') ->
  forall p, p ∈ dict_keys fls -> p ∈ dict_keys d.
Proof.
  revert d nid. induction fls as [|[p0 f] fls IH]; intros d nid; simpl.
  - intros _ p Hp. by apply elem_of_nil in Hp.
  - destruct (dict_get d p0) as [old|] eqn:Hold; [|done].
    intros Happ p Hp. apply elem_of_cons in Hp as [->|Hp].
    + by eapply dict_get_Some_keys.
    + specialize (IH _ _ Happ p Hp).
      apply dict_keys_set_elem in IH as [->|]; [by eapply dict_get_Some_keys | done].
Qed.

Lemma apply_flows_on_Raise fls d nid e d' nid' :
  apply_flows_on fls d nid = (Raise e, d', nid') ->
  exists p, e = KeyError (KPart p) /\ p ∈ dict_keys fls /\ p ∉ dict_keys d.
Proof.
  revert d nid. induction fls as [|[p0 f] fls IH]; intros d nid; simpl; [done|].
  destruct (dict_get d p0) as [old|] eqn:Hold.
  - intros Happ. destruct (IH _ _ Happ) as (p & -> & Hp & Hnot).
    exists p. split_and!; [done | by apply list_elem_of_further |].
    intros Hin. apply Hnot, dict_keys_set_elem. by right.
  - intros [= <- _ _]. exists p0.
    split_and!; [done | apply list_elem_of_here | by apply dict_get_None].
Qed.

(** A part the flow does not name keeps its very frozenset. *)
Lemma apply_flows_on_other fls d nid r d' nid' p :
  apply_flows_on fls d nid = (r, d', nid') ->
  p ∉ dict_keys fls -> dict_get d' p = dict_get d p.
Proof.
  revert d nid. induction fls as [|[p0 f] fls IH]; intros d nid; simpl.
  - by intros [= _ <- _].
  - rewrite not_elem_of_cons.
    destruct (dict_get d p0) as [old|]; [|by intros [= _ <- _]].
    intros Happ [Hne Hnot]. rewrite (IH _ _ Happ Hnot).
    by apply dict_get_set_ne.
Qed.

(** Every frozenset of the result is one of the dict it started from, or a
    new object. *)
Lemma apply_flows_on_objects fls d nid r d' nid' p fs' :
  apply_flows_on fls d nid = (r, d', nid') ->
  dict_get d' p = Some fs' -> dict_get d p = Some fs' \/ nid <= fs_id fs'.
Proof.
  revert d nid. induction fls as [|[p0 f] fls IH]; intros d nid; simpl.
  - intros [= _ <- _]. by left.
  - destruct (dict_get d p0) as [old|]; [|intros [= _ <- _]; by left].
    intros Happ Hget. destruct (IH _ _ Happ Hget) as [Hold|Hid]; [|right; lia].
    rewrite dict_get_set in Hold. destruct (decide (p0 = p)) as [->|].
    + injection Hold as <-. right. simpl. lia.
    + by left.
Qed.

(** The sets after a flow with distinct keys was applied. *)
Lemma apply_flows_on_elems fls d nid d' nid' p :
  NoDup (dict_keys fls) ->
  apply_flows_on fls d nid = (Ok tt, d', nid') ->
  fs_elems <$> dict_get d' p =
  (fun fs => (fs_elems fs ∖ flow_out_of fls p) ∪ flow_in_of fls p) <$> dict_get d p.
Proof.
  revert d nid. induction fls as [|[p0 f] fls IH]; intros d nid Hnd; simpl in *.
  - intros [= <- _]. unfold flow_out_of, flow_in_of. simpl.
    destruct (dict_get d p) as [fs|]; simpl; [|done].
    f_equal. set_solver.
  - apply NoDup_cons in Hnd as [Hnot Hnd].
    destruct (dict_get d p0) as [old|] eqn:Hold; [|done].
    intros Happ. rewrite (IH _ _ Hnd Happ). rewrite dict_get_set.
    unfold flow_out_of, flow_in_of. simpl.
    destruct (decide (p0 = p)) as [->|Hne].
    + apply dict_get_None in Hnot. rewrite Hnot, Hold. simpl.
      f_equal. set_solver.
    + done.
Qed.

Lemma in_part_apply_flows_on fls d nid d' nid' p n :
  NoDup (dict_keys fls) ->
  apply_flows_on fls d nid = (Ok tt, d', nid') ->
  in_part d' p n <->
  p ∈ dict_keys d /\
  ((in_part d p n /\ n ∉ flow_out_of fls p) \/ n ∈ flow_in_of fls p).
Proof.
  intros Hnd Happ. pose proof (apply_flows_on_elems _ _ _ _ _ p Hnd Happ) as Hel.
  unfold in_part. split.
  - intros (fs' & Hget' & Hin). rewrite Hget' in Hel. simpl in Hel.
    destruct (dict_get d p) as [fs|] eqn:Hget; [|done].
    injection Hel as Hel. rewrite Hel in Hin. split; [by eapply dict_get_Some_keys|].
    apply elem_of_union in Hin as [Hin|Hin]; [|by right].
    apply elem_of_difference in Hin as [Hin Hout].
    left. split; [by exists fs | done].
  - intros [Hp Hcases].
    apply dict_get_is_Some in Hp as [fs Hget]. rewrite Hget in Hel. simpl in Hel.
    destruct (dict_get d' p) as [fs'|]; [|done].
    injection Hel as Hel. exists fs'. split; [done|]. rewrite Hel.
    destruct Hcases as [[(fs0 & Hget0 & Hin) Hout]|Hin].
    + rewrite Hget in Hget0. injection Hget0 as <-. set_solver.
    + set_solver.
Qed.

(** ** The parts after an update *)

(** The part of a node once the delta [fl] is applied to the parts [d]. *)
Lemma update_in_part d fl fls nid d' nid' p n :
  parts_ok d ->
  NoDup (dict_keys fl) ->
  flows_on d fl [] = Ok fls ->
  apply_flows_on fls d nid = (Ok tt, d', nid') ->
  in_part d' p n <->
  exists s, find_part d n = Some s /\ default s (dict_get fl n) = p.
Proof.
  intros Hok Hfl Hflows Happ.
  assert (NoDup (dict_keys fls)) as Hnd.
  { eapply flows_on_NoDup; [done | apply NoDup_nil_2]. }
  rewrite (in_part_apply_flows_on _ _ _ _ _ _ _ Hnd Happ).
  rewrite (flows_on_out _ _ _ _ Hflows), (flows_on_in _ _ _ _ Hflows).
  unfold flow_out_of, flow_in_of. simpl. split.
  - intros [Hp [[Hin Hout]|[Hin|[Hin (s & Hs & Hne)]]]].
    + exists p. split; [by apply in_part_find_part|].
      destruct (dict_get fl n) as [t|] eqn:Ht; simpl; [|done].
      destruct (decide (p = t)) as [|Hne]; [done|]. exfalso. apply Hout. right.
      exists t. split_and!; [by apply dict_get_Some_elem | by apply in_part_find_part | done].
    + by apply not_elem_of_empty in Hin.
    + exists s. split; [done|]. by rewrite (dict_elem_get _ _ _ Hfl Hin).
  - intros (s & Hs & Hp).
    assert (in_part d s n) as Hins by (apply find_part_in_part; [apply Hok | done]).
    destruct (dict_get fl n) as [t|] eqn:Ht; simpl in Hp; subst p.
    + destruct (decide (s = t)) as [->|Hne].
      * split; [destruct Hins as (fs & ? & _); by eapply dict_get_Some_keys|].
        left. split; [done|]. intros [Hin|(t' & Hin & _ & Hne)].
        -- by apply not_elem_of_empty in Hin.
        -- apply (dict_elem_get _ _ _ Hfl) in Hin. congruence.
      * split.
        -- eapply apply_flows_on_Ok_inv; [done|].
           apply (flows_on_keys _ _ _ _ Hflows). right.
           exists n, s, t. split_and!; [by apply dict_get_Some_elem | done | done | by right].
        -- right. right. split; [by apply dict_get_Some_elem | by exists s].
    + split; [destruct Hins as (fs & ? & _); by eapply dict_get_Some_keys|].
      left. split; [done|]. intros [Hin|(t' & Hin & _ & Hne)].
      * by apply not_elem_of_empty in Hin.
      * apply (dict_elem_get _ _ _ Hfl) in Hin. congruence.
Qed.

Lemma update_parts_ok d fl fls nid d' nid' :
  parts_ok d ->
  NoDup (dict_keys fl) ->
  flows_on d fl [] = Ok fls ->
  apply_flows_on fls d nid = (Ok tt, d', nid') ->
  parts_ok d'.
Proof.
  intros Hok Hfl Hflows Happ. split.
  - rewrite (apply_flows_on_keys _ _ _ _ _ _ Happ). apply Hok.
  - intros p q n Hp Hq.
    apply (update_in_part _ _ _ _ _ _ _ _ Hok Hfl Hflows Happ) in Hp as (s & Hs & <-).
    apply (update_in_part _ _ _ _ _ _ _ _ Hok Hfl Hflows Happ) in Hq as (s' & Hs' & <-).
    congruence.
Qed.

Lemma update_find_part d fl fls nid d' nid' n :
  parts_ok d ->
  NoDup (dict_keys fl) ->
  flows_on d fl [] = Ok fls ->
  apply_flows_on fls d nid = (Ok tt, d', nid') ->
  find_part d' n = (fun s => default s (dict_get fl n)) <$> find_part d n.
Proof.
  intros Hok Hfl Hflows Happ.
  pose proof (update_parts_ok _ _ _ _ _ _ Hok Hfl Hflows Happ) as Hok'.
  destruct (find_part d n) as [s|] eqn:Hs; simpl.
  - apply in_part_find_part; [done|].
    apply (update_in_part _ _ _ _ _ _ _ _ Hok Hfl Hflows Happ). by exists s.
  - apply find_part_None_in_part; [apply Hok'|]. intros p Hp.
    apply (update_in_part _ _ _ _ _ _ _ _ Hok Hfl Hflows Happ) in Hp as (s & Hs' & _).
    congruence.
Qed.

(** ** The parts built from scratch *)

Lemma parts_items_elem d n p :
  NoDup (dict_keys d) -> (n, p) ∈ parts_items d <-> in_part d p n.
Proof.
  intros Hnd. unfold parts_items, in_part. rewrite list_elem_of_In, in_flat_map.
  split.
  - intros ([p' fs] & Hel & Hin). apply list_elem_of_In in Hel.
    apply list_elem_of_In, list_elem_of_fmap in Hin as (n' & [= -> ->] & Hin).
    simpl in *. exists fs. split; [by apply dict_elem_get|].
    by apply elem_of_elements in Hin.
  - intros (fs & Hget & Hin). exists (p, fs).
    split; [by apply list_elem_of_In, dict_get_Some_elem|].
    apply list_elem_of_In, list_elem_of_fmap. exists n. split; [done|].
    by apply elem_of_elements.
Qed.

Lemma dict_of_parts_items d n :
  parts_ok d -> dict_get (dict_of_items (parts_items d)) n = find_part d n.
Proof.
  intros Hok. destruct (dict_get (dict_of_items (parts_items d)) n) as [p|] eqn:Hget.
  - symmetry. apply in_part_find_part; [done|].
    apply dict_update_get_elem in Hget as [Hin|Hget]; [|done].
    apply parts_items_elem; [apply Hok | done].
  - symmetry. apply find_part_None_in_part; [apply Hok|]. intros p Hin.
    apply parts_items_elem in Hin; [|apply Hok].
    apply dict_get_None in Hget. apply Hget.
    apply dict_update_keys. right. apply list_elem_of_fmap. by exists (n, p).
Qed.

Lemma full_mapping_get d fl n :
  parts_ok d -> NoDup (dict_keys fl) ->
  dict_get (full_mapping d fl) n =
  match dict_get fl n with Some t => Some t | None => find_part d n end.
Proof.
  intros Hok Hfl. unfold full_mapping.
  rewrite dict_update_get by done. by rewrite dict_of_parts_items.
Qed.

Lemma level_sets_parts_ok (m : list (Node * Part)) nid :
  NoDup (dict_keys m) -> parts_ok (freeze_on (level_sets m) nid).
Proof.
  intros Hnd. split.
  - rewrite freeze_on_keys. apply level_sets_NoDup.
  - intros p q n Hp Hq.
    apply in_part_freeze_on, level_sets_elem in Hp.
    apply in_part_freeze_on, level_sets_elem in Hq.
    apply (dict_elem_get _ _ _ Hnd) in Hp, Hq. congruence.
Qed.

Lemma level_sets_find_part (m : list (Node * Part)) nid n :
  NoDup (dict_keys m) ->
  find_part (freeze_on (level_sets m) nid) n = dict_get m n.
Proof.
  intros Hnd. pose proof (level_sets_parts_ok m nid Hnd) as Hok.
  destruct (dict_get m n) as [p|] eqn:Hget.
  - apply in_part_find_part; [done|].
    apply in_part_freeze_on, level_sets_elem. by apply dict_get_Some_elem.
  - apply find_part_None_in_part; [apply Hok|]. intros p Hp.
    apply in_part_freeze_on, level_sets_elem in Hp.
    apply (dict_elem_get _ _ _ Hnd) in Hp. congruence.
Qed.

(** ** Stores *)

Lemma extends_refl st : extends st st.
Proof. by split_and!. Qed.

Lemma extends_trans st1 st2 st3 : extends st1 st2 -> extends st2 st3 -> extends st1 st3.
Proof.
  intros (Hd1 & Hn1 & Hc1) (Hd2 & Hn2 & Hc2).
  split_and!; [by etrans | lia | by etrans].
Qed.

Lemma extends_deref st st' l :
  extends st st' -> l < length (st_dicts st) -> deref st' l = deref st l.
Proof.
  intros (Hd & _ & _) Hl. unfold deref.
  by rewrite <- (prefix_lookup_lt _ _ _ Hl Hd).
Qed.

Lemma extends_allocated st st' a : extends st st' -> allocated st a -> allocated st' a.
Proof.
  intros (Hd & _ & _). unfold allocated. apply prefix_length in Hd. lia.
Qed.

Lemma Assignment_copy_run a st :
  Assignment_copy a st =
  (Ok (mkAssignment (length (st_dicts st))),
   mkState (st_dicts st ++ [deref st (parts_ref a)]) (st_next_id st) (st_calls st)).
Proof. done. Qed.

Lemma Assignment_items_run a st :
  Assignment_items a st = (Ok (parts_items (deref st (parts_ref a))), st).
Proof. done. Qed.

(** An update of the assignment allocated last. *)
Lemma Assignment_update_fresh dicts d nid calls fl :
  Assignment_update (mkAssignment (length dicts)) fl (mkState (dicts ++ [d]) nid calls) =
  match flows_on d fl [] with
  | Raise e => (Raise e, mkState (dicts ++ [d]) nid calls)
  | Ok fls =>
      let '(r, d', nid') := apply_flows_on fls d nid in
      (r, mkState (dicts ++ [d']) nid' calls)
  end.
Proof.
  unfold Assignment_update, bind. rewrite flows_from_changes_run.
  pose proof (deref_alloc (mkState dicts nid calls) d) as Hd. simpl in Hd, Hd.
  simpl. rewrite Hd. destruct (flows_on d fl []) as [fls|e]; [|done].
  rewrite apply_flows_run by (simpl; rewrite length_app; simpl; lia).
  simpl. rewrite Hd. destruct (apply_flows_on fls d nid) as [[r d'] nid'].
  f_equal. f_equal.
  replace (length dicts) with (length dicts + 0) by lia.
  by rewrite insert_app_r.
Qed.

Lemma crosses_run a (edge : Node * Node) st : (crosses a edge st).2 = st.
Proof.
  unfold crosses, bind. rewrite Assignment_getitem_run.
  destruct (find_part _ edge.1); [|done].
  rewrite Assignment_getitem_run. by destruct (find_part _ edge.2).
Qed.

Lemma edge_flows_loop_run a a' (changed : gset Node) (es : list (Node * Node)) st :
  (edge_flows_loop a a' changed es st).2 = st.
Proof.
  induction es as [|edge es IH]; simpl; [done|].
  destruct (decide _); [|done]. unfold bind.
  pose proof (crosses_run a' edge st) as H1.
  destruct (crosses a' edge st) as [[now|e] st1]; simpl in H1; subst st1; [|done].
  pose proof (crosses_run a edge st) as H2.
  destruct (crosses a edge st) as [[before|e] st1]; simpl in H2; subst st1; [|done].
  destruct (edge_flows_loop a a' changed es st) as [[more|e] st1];
    simpl in IH; subst st1; done.
Qed.

Lemma compute_edge_flows_run (self : PartitionData Node Part Value) st :
  (compute_edge_flows self st).2 = st.
Proof.
  unfold compute_edge_flows. destruct (graph self); [|done].
  destruct (parent self); [|done]. apply edge_flows_loop_run.
Qed.

(** ** The monad *)

Lemma bind_inv {A B} (m : M Node Part A) (k : A -> M Node Part B) st r st' :
  bind m k st = (r, st') ->
  (exists x st1, m st = (Ok x, st1) /\ k x st1 = (r, st')) \/
  (exists e, m st = (Raise e, st') /\ r = Raise e).
Proof.
  unfold bind. destruct (m st) as [[x|e] st1].
  - intros Hk. left. by exists x, st1.
  - intros [= <- <-]. right. by exists e.
Qed.

Lemma bind_Ok_inv {A B} (m : M Node Part A) (k : A -> M Node Part B) st y st' :
  bind m k st = (Ok y, st') ->
  exists x st1, m st = (Ok x, st1) /\ k x st1 = (Ok y, st').
Proof.
  intros Hb. apply bind_inv in Hb as [Hb|(e & _ & [=])]. done.
Qed.

(** ** The updater cache *)

Lemma calls_of_nil pid name : calls_of pid name [] = 0.
Proof. done. Qed.

Lemma calls_of_cons pid name c calls :
  calls_of pid name (c :: calls) =
  (if decide (c = (pid, name)) then 1 else 0) + calls_of pid name calls.
Proof.
  unfold calls_of. rewrite filter_cons.
  by destruct (decide (c = (pid, name))).
Qed.



Lemma call_updater_inv P key st r st' :
  call_updater P key st = (r, st') ->
  st_dicts st' = st_dicts st /\ st_next_id st' = st_next_id st /\
  ((st' = st /\ r = Raise (KeyError (KName key)) /\ dict_get (updaters P) key = None) \/
   (exists f, dict_get (updaters P) key = Some f /\
      st_calls st' = st_calls st ++ [(p_id (pdata P), key)] /\
      r = match f st' (pdata P) with
          | Ok v => Ok (mkPartition
                          (set_cache (pdata P) (dict_set (_cache (pdata P)) key v))
                          (updaters P))
          | Raise e => Raise e
          end)).
Proof.
  unfold call_updater. destruct (dict_get (updaters P) key) as [f|].
  - unfold bind, log_call, get_state, lift, ret. simpl.
    set (st1 := mkState _ _ _). destruct (f st1 (pdata P)) as [v|e] eqn:Hf.
    + intros [= <- <-]. split_and!; [done..|]. right. exists f. by rewrite Hf.
    + intros [= <- <-]. split_and!; [done..|]. right. exists f. by rewrite Hf.
  - intros [= <- <-]. split_and!; [done..|]. by left.
Qed.

Lemma dict_mem_true {V} (d : list (string * V)) k : dict_mem d k = true <-> k ∈ dict_keys d.
Proof.
  unfold dict_mem. rewrite <- dict_get_is_Some. destruct (dict_get d k) as [v|].
  - split; [by eexists | done].
  - split; [done | intros [? [=]]].
Qed.

Lemma dict_mem_set {V} (d : list (string * V)) k k' v :
  dict_mem (dict_set d k v) k' = if decide (k = k') then true else dict_mem d k'.
Proof. unfold dict_mem. rewrite dict_get_set. by destruct (decide (k = k')). Qed.

(** What the loop of [_update] leaves: the store but for the calls it made,
    and a cache that holds every key of the loop. *)
Lemma update_loop_inv keys P st r st' :
  update_loop keys P st = (r, st') ->
  st_dicts st' = st_dicts st /\ st_next_id st' = st_next_id st /\
  exists new,
    st_calls st' = st_calls st ++ new /\
    (forall c, c ∈ new -> c.1 = p_id (pdata P)) /\
    forall P', r = Ok P' ->
      updaters P' = updaters P /\
      set_cache (pdata P') [] = set_cache (pdata P) [] /\
      (forall k, k ∈ dict_keys (_cache (pdata P')) <->
                 k ∈ dict_keys (_cache (pdata P)) \/ k ∈ keys) /\
      (forall k, k ∈ dict_keys (_cache (pdata P)) ->
                 dict_get (_cache (pdata P')) k = dict_get (_cache (pdata P)) k) /\
      (forall k, calls_of (p_id (pdata P)) k new =
                 if bool_decide (k ∈ keys) && negb (dict_mem (_cache (pdata P)) k)
                 then 1 else 0).
Proof.
  revert P st r st'. induction keys as [|key keys IH]; intros P st r st'; simpl.
  - intros [= <- <-]. split_and!; [done..|]. exists []. rewrite app_nil_r.
    split_and!; [done | by intros c Hc%elem_of_nil |].
    intros P' [= <-]. split_and!; [done..| | done |done].
    intros k. split; [by left | intros [?|Hk%elem_of_nil]; done].
  - destruct (dict_mem (_cache (pdata P)) key) eqn:Hmem.
    + intros Hrun. destruct (IH _ _ _ _ Hrun) as (Hd & Hn & new & Hc & Hpid & HP').
      split_and!; [done..|]. exists new. split_and!; [done..|].
      intros P' ->. destruct (HP' _ eq_refl) as (Hu & Hs & Hk & Hw & Hcount).
      split_and!; [done..| | done |].
      * intros k. rewrite Hk, elem_of_cons. apply dict_mem_true in Hmem.
        split; [tauto | intros [?|[->|?]]; tauto].
      * intros k. rewrite Hcount. destruct (decide (k = key)) as [->|Hne].
        -- rewrite Hmem. simpl. by rewrite !andb_false_r.
        -- rewrite (bool_decide_ext (k ∈ key :: keys) (k ∈ keys)); [done|].
           rewrite elem_of_cons. tauto.
    + intros Hrun. apply bind_inv in Hrun as [(P1 & st1 & Hcall & Hrun)|(e & Hcall & ->)].
      * apply call_updater_inv in Hcall as (Hd1 & Hn1 & [(_ & [=] & _)|(f & Hf & Hc1 & HP1)]).
        destruct (f st1 (pdata P)) as [v|e]; [injection HP1 as ->|done].
        destruct (IH _ _ _ _ Hrun) as (Hd & Hn & new & Hc & Hpid & HP').
        simpl in *. split_and!; [congruence..|].
        exists ((p_id (pdata P), key) :: new). split_and!.
        -- rewrite Hc, Hc1, <- app_assoc. done.
        -- intros c [->|Hin]%elem_of_cons; [done | by apply Hpid].
        -- intros P' ->. destruct (HP' _ eq_refl) as (Hu & Hs & Hk & Hw & Hcount).
           split_and!; [done | done | | |].
           ++ intros k. rewrite Hk, dict_keys_set_elem, elem_of_cons. tauto.
           ++ intros k Hin. rewrite Hw by (apply dict_keys_set_elem; by right).
              apply dict_get_set_ne. intros ->.
              apply dict_mem_true in Hin. congruence.
           ++ intros k. rewrite calls_of_cons, Hcount, dict_mem_set.
              destruct (decide (key = k)) as [->|Hne].
              ** rewrite decide_True by done. rewrite Hmem, andb_false_r.
                 rewrite bool_decide_true by apply list_elem_of_here. done.
              ** rewrite decide_False by congruence. simpl.
                 rewrite (bool_decide_ext (k ∈ key :: keys) (k ∈ keys)); [done|].
                 rewrite elem_of_cons. split; [|tauto].
                 intros [->|?]; [done | tauto].
      * apply call_updater_inv in Hcall as (Hd1 & Hn1 & [(-> & _ & _)|(f & Hf & Hc1 & HP1)]).
        -- split_and!; [done..|]. exists []. rewrite app_nil_r.
           split_and!; [done | by intros c Hc%elem_of_nil | done].
        -- split_and!; [done..|]. exists [(p_id (pdata P), key)].
           split_and!; [done | by intros c ->%list_elem_of_singleton | done].
Qed.

Lemma Partition_update_inv P st r st' :
  Partition_update P st = (r, st') ->
  st_dicts st' = st_dicts st /\ st_next_id st' = st_next_id st /\
  exists new,
    st_calls st' = st_calls st ++ new /\
    (forall c, c ∈ new -> c.1 = p_id (pdata P)) /\
    forall P', r = Ok P' ->
      updaters P' = updaters P /\
      set_cache (pdata P') [] = set_cache (pdata P) [] /\
      (forall k, k ∈ dict_keys (updaters P) ->
         is_Some (dict_get (_cache (pdata P')) k) /\
         calls_of (p_id (pdata P)) k new = 1).
Proof.
  unfold Partition_update. intros Hrun.
  destruct (update_loop_inv _ _ _ _ _ Hrun) as (Hd & Hn & new & Hc & Hpid & HP').
  simpl in *. split_and!; [done..|]. exists new. split_and!; [done..|].
  intros P' ->. destruct (HP' _ eq_refl) as (Hu & Hs & Hk & Hw & Hcount).
  split_and!; [done..|]. intros k Hin. split.
  - apply dict_get_is_Some, Hk. by right.
  - rewrite Hcount. by rewrite bool_decide_true.
Qed.


(** ** Construction *)

(** What [_from_parent] does to the store, and the partition it builds. *)
Lemma Partition_from_parent_inv pid P ofl st r st' :
  Partition_from_parent pid P ofl st = (r, st') ->
  st_calls st' = st_calls st /\
  st_next_id st <= st_next_id st' /\
  exists d',
    st_dicts st' = st_dicts st ++ [d'] /\
    dict_keys d' = dict_keys (parts_of st P) /\
    (forall p fs, dict_get d' p = Some fs ->
       dict_get (parts_of st P) p = Some fs \/ st_next_id st <= fs_id fs) /\
    forall P', r = Ok P' ->
      (exists mapping fls,
         ofl = Some mapping /\
         flows_on (parts_of st P) mapping [] = Ok fls /\
         apply_flows_on fls (parts_of st P) (st_next_id st) = (Ok tt, d', st_next_id st')) /\
      updaters P' = updaters P /\
      p_id (pdata P') = pid /\
      assignment (pdata P') = mkAssignment (length (st_dicts st)) /\
      graph (pdata P') = graph (pdata P) /\
      parts (pdata P') = parts (pdata P) /\
      parent (pdata P') = Some (pdata P) /\
      flips (pdata P') = ofl /\
      _cache (pdata P') = [].
Proof.
  unfold Partition_from_parent, bind. rewrite Assignment_copy_run.
  fold (parts_of st P). set (d := parts_of st P).
  destruct ofl as [mapping|].
  - rewrite Assignment_update_fresh.
    destruct (flows_on d mapping []) as [fls|e] eqn:Hfl.
    + destruct (apply_flows_on fls d (st_next_id st)) as [[r0 d'] nid'] eqn:Happ.
      pose proof (apply_flows_on_keys _ _ _ _ _ _ Happ) as Hkeys.
      pose proof (apply_flows_on_id _ _ _ _ _ _ Happ) as Hid.
      assert (forall p fs, dict_get d' p = Some fs ->
                dict_get d p = Some fs \/ st_next_id st <= fs_id fs) as Hobj.
      { intros p fs. by apply (apply_flows_on_objects _ _ _ _ _ _ _ _ Happ). }
      destruct r0 as [[]|e].
      * rewrite flows_from_changes_run.
        destruct (flows_on (deref _ _) mapping []) as [fls'|e]; simpl.
        -- match goal with
           | |- context [compute_edge_flows ?s _] => set (self := s)
           end.
           pose proof (compute_edge_flows_run self
                         (mkState (st_dicts st ++ [d']) nid' (st_calls st))) as Hst.
           destruct (compute_edge_flows self _) as [[ef|e] st2]; simpl in Hst; subst st2.
           ++ intros [= <- <-]. simpl. split_and!; [done..|].
              exists d'. split_and!; [done..|]. intros P' [= <-]. simpl.
              split_and!; [|done..]. by exists mapping, fls.
           ++ intros [= <- <-]. simpl. split_and!; [done..|].
              exists d'. split_and!; [done..|]. by intros P' [=].
        -- intros [= <- <-]. simpl. split_and!; [done..|].
           exists d'. split_and!; [done..|]. by intros P' [=].
      * intros [= <- <-]. simpl. split_and!; [done..|].
        exists d'. split_and!; [done..|]. by intros P' [=].
    + intros [= <- <-]. simpl. split_and!; [done..|].
      exists d. split_and!; [done | done | by left |]. by intros P' [=].
  - intros [= <- <-]. simpl. split_and!; [done..|].
    exists d. split_and!; [done | done | by left |]. by intros P' [=].
Qed.

(** What [_first_time] does to the store, and the partition it builds. *)
Lemma Partition_first_time_inv pid g arg ups st r st' :
  Partition_first_time pid g arg ups st = (r, st') ->
  st_calls st' = st_calls st /\
  st_next_id st <= st_next_id st' /\
  st_dicts st `prefix_of` st_dicts st' /\
  forall P', r = Ok P' ->
    p_id (pdata P') = pid /\
    graph (pdata P') = g /\
    parent (pdata P') = None /\
    _cache (pdata P') = [] /\
    parts (pdata P') =
      PartsSets (level_sets (parts_items (deref st' (parts_ref (assignment (pdata P')))))) /\
    match arg with
    | ArgDict m =>
        assignment (pdata P') = mkAssignment (length (st_dicts st)) /\
        st_dicts st' = st_dicts st ++ [freeze_on (level_sets m) (st_next_id st)]
    | ArgAssignment a => assignment (pdata P') = a /\ st' = st
    | ArgStr name => True
    | _ => False
    end.
Proof.
  unfold Partition_first_time, bind, get_assignment.
  destruct arg as [|name|m|a|tag]; simpl.
  - intros [= <- <-]. split_and!; [done..|]. by intros P' [=].
  - destruct g as [gg|]; [|intros [= <- <-]; split_and!; [done..|]; by intros P' [=]].
    unfold bind, lift. destruct (node_attribute gg name) as [m|e].
    + rewrite Assignment_from_dict_run. simpl. intros [= <- <-]. simpl.
      split_and!; [done | lia | by apply prefix_app_r |].
      intros P' [= <-]. simpl. by split_and!.
    + intros [= <- <-]. split_and!; [done..|]. by intros P' [=].
  - rewrite Assignment_from_dict_run. simpl. intros [= <- <-]. simpl.
    split_and!; [done | lia | by apply prefix_app_r |].
    intros P' [= <-]. simpl. by split_and!.
  - intros [= <- <-]. split_and!; [done..|].
    intros P' [= <-]. simpl. by split_and!.
  - intros [= <- <-]. split_and!; [done..|]. by intros P' [=].
Qed.

(** The partition [__init__] is run on when [parent] is given and true. *)
Lemma Partition_init_child g arg ups P ofl st :
  Partition_len (pdata P) <> 0 ->
  Partition_init g arg ups (Some P) ofl st =
  bind (Partition_from_parent (st_next_id st) P ofl) Partition_update
    (mkState (st_dicts st) (S (st_next_id st)) (st_calls st)).
Proof.
  intros Hlen. unfold Partition_init, bind at 1, fresh_id. simpl.
  destruct (Partition_len (pdata P)) as [|k] eqn:E; [done|]. done.
Qed.

(** The other case: [parent] is [None], or a partition without parts. *)
Lemma Partition_init_root g arg ups par ofl st :
  truthy par = None ->
  Partition_init g arg ups par ofl st =
  bind (Partition_first_time (st_next_id st) g arg ups)
    (fun P1 =>
       bind (Partition_update P1)
         (fun P2 =>
            bind (lift (parts_keys (parts (pdata P2))))
              (fun keys => ret (mkPartition (set_parts (pdata P2) keys) (updaters P2)))))
    (mkState (st_dicts st) (S (st_next_id st)) (st_calls st)).
Proof.
  intros Hpar. unfold Partition_init, bind at 1, fresh_id. simpl. by rewrite Hpar.
Qed.

Lemma truthy_cases (par : option (Partition Node Part Value)) :
  truthy par = None \/ exists P, par = Some P /\ Partition_len (pdata P) <> 0.
Proof.
  destruct par as [P|]; [|by left]. simpl.
  destruct (Partition_len (pdata P)) as [|k] eqn:E; [by left|].
  right. exists P. split; [done | lia].
Qed.

(** No call of the constructor changes an object of the store. *)
Lemma Partition_init_extends g arg ups par ofl st r st' :
  Partition_init g arg ups par ofl st = (r, st') -> extends st st'.
Proof.
  destruct (truthy_cases par) as [Hpar|(P & -> & Hlen)].
  - rewrite Partition_init_root by done. intros Hrun.
    apply bind_inv in Hrun as [(P1 & st1 & Hft & Hrun)|(e & Hft & _)];
      apply Partition_first_time_inv in Hft as (Hc1 & Hn1 & Hd1 & _); simpl in *.
    + assert (extends st st1) as Hext1 by (split_and!; [done | lia | by rewrite Hc1]).
      eapply extends_trans; [done|].
      apply bind_inv in Hrun as [(P2 & st2 & Hup & Hrun)|(e & Hup & _)];
        apply Partition_update_inv in Hup as (Hd2 & Hn2 & new & Hc2 & _).
      * assert (extends st1 st2) as Hext2.
        { split_and!; [by rewrite Hd2 | lia | rewrite Hc2; by apply prefix_app_r]. }
        unfold bind, lift, ret in Hrun.
        destruct (parts_keys _); injection Hrun as _ <-; done.
      * split_and!; [by rewrite Hd2 | lia | rewrite Hc2; by apply prefix_app_r].
    + split_and!; [done | lia | by rewrite Hc1].
  - rewrite Partition_init_child by done. intros Hrun.
    apply bind_inv in Hrun as [(P1 & st1 & Hfp & Hrun)|(e & Hfp & _)];
      apply Partition_from_parent_inv in Hfp as (Hc1 & Hn1 & d' & Hd1 & _); simpl in *.
    + apply Partition_update_inv in Hrun as (Hd2 & Hn2 & new & Hc2 & _).
      split_and!.
      * rewrite Hd2, Hd1. by apply prefix_app_r.
      * lia.
      * rewrite Hc2, Hc1. by apply prefix_app_r.
    + split_and!; [rewrite Hd1; by apply prefix_app_r | lia | by rewrite Hc1].
Qed.

Lemma Partition_getitem_extends P key st r st' :
  Partition_getitem P key st = (r, st') -> extends st st'.
Proof.
  unfold Partition_getitem. intros Hrun.
  assert (forall (P1 : Partition Node Part Value) st1,
            (match dict_get (_cache (pdata P1)) key with
             | Some v => ret (v, P1)
             | None => raise (KeyError (KName key))
             end) st1 = (r, st') -> st1 = st') as Hlast.
  { intros P1 st1. destruct (dict_get _ key); by intros [= _ <-]. }
  apply bind_inv in Hrun as [(P1 & st1 & Hfirst & Hrun)|(e & Hfirst & _)].
  - apply Hlast in Hrun as ->. destruct (dict_mem _ key).
    + injection Hfirst as _ <-. apply extends_refl.
    + apply call_updater_inv in Hfirst as (Hd & Hn & [(-> & _)|(f & _ & Hc & _)]).
      * apply extends_refl.
      * split_and!; [by rewrite Hd | lia | rewrite Hc; by apply prefix_app_r].
  - destruct (dict_mem _ key); [done|].
    apply call_updater_inv in Hfirst as (Hd & Hn & [(-> & _)|(f & _ & Hc & _)]).
    + apply extends_refl.
    + split_and!; [by rewrite Hd | lia | rewrite Hc; by apply prefix_app_r].
Qed.

Lemma api_step_extends st st' : api_step (Value := Value) st st' -> extends st st'.
Proof.
  intros [g arg ups par ofl st0 r st0' Hrun|P key st0 r st0' Hrun|P edge st0 r st0' Hrun].
  - by eapply Partition_init_extends.
  - by eapply Partition_getitem_extends.
  - unfold Partition_crosses_parts in Hrun.
    pose proof (crosses_run (assignment (pdata P)) edge st0) as Hst.
    rewrite Hrun in Hst. simpl in Hst. subst. apply extends_refl.
Qed.

(** ** Merging *)

Lemma parts_of_next_id P st nid calls :
  parts_of (mkState (st_dicts st) nid calls) P = parts_of st P.
Proof. done. Qed.

(** A merge that returns took the path of [_from_parent]. *)
Lemma Partition_merge_inv P fl st P' st' :
  Partition_merge P fl st = (Ok P', st') ->
  Partition_len (pdata P) <> 0 /\
  exists fls d' nid',
    flows_on (parts_of st P) fl [] = Ok fls /\
    apply_flows_on fls (parts_of st P) (S (st_next_id st)) = (Ok tt, d', nid') /\
    st_dicts st' = st_dicts st ++ [d'] /\
    assignment (pdata P') = mkAssignment (length (st_dicts st)) /\
    parts_of st' P' = d' /\
    updaters P' = updaters P /\
    graph (pdata P') = graph (pdata P) /\
    parts (pdata P') = parts (pdata P) /\
    parent (pdata P') = Some (pdata P) /\
    p_id (pdata P') = st_next_id st.
Proof.
  unfold Partition_merge. intros Hrun.
  destruct (truthy_cases (Some P)) as [Hpar|(P0 & [= <-] & Hlen)].
  - rewrite Partition_init_root in Hrun by done.
    apply bind_Ok_inv in Hrun as (P1 & st1 & Hft & _).
    apply Partition_first_time_inv in Hft as (_ & _ & _ & HP1).
    by destruct (HP1 _ eq_refl) as (_ & _ & _ & _ & _ & []).
  - split; [done|]. rewrite Partition_init_child in Hrun by done.
    apply bind_Ok_inv in Hrun as (P1 & st1 & Hfp & Hup).
    apply Partition_from_parent_inv in Hfp as (Hc1 & Hn1 & d' & Hd1 & _ & _ & HP1).
    destruct (HP1 _ eq_refl) as ((mapping & fls & [= <-] & Hfl & Happ) & Hu1 & Hpid & Ha & Hg & Hp & Hpar & _).
    apply Partition_update_inv in Hup as (Hd2 & Hn2 & new & Hc2 & _ & HP').
    destruct (HP' _ eq_refl) as (Hu & Hs & _).
    pose proof (f_equal assignment Hs) as Ha'.
    pose proof (f_equal graph Hs) as Hg'.
    pose proof (f_equal parts Hs) as Hp'.
    pose proof (f_equal parent Hs) as Hpar'.
    pose proof (f_equal p_id Hs) as Hpid'.
    simpl in *. rewrite parts_of_next_id in Hfl, Happ.
    exists fls, d', (st_next_id st1). split_and!; try congruence.
    unfold parts_of. rewrite Ha', Ha. simpl. unfold deref.
    rewrite Hd2, Hd1. by rewrite list_lookup_middle.
Qed.

Lemma incremental_run a fl st :
  incremental a fl st =
  match flows_on (deref st (parts_ref a)) fl [] with
  | Raise e =>
      (Raise e,
       mkState (st_dicts st ++ [deref st (parts_ref a)]) (st_next_id st) (st_calls st))
  | Ok fls =>
      let '(r, d', nid') := apply_flows_on fls (deref st (parts_ref a)) (st_next_id st) in
      (match r with Ok _ => Ok (mkAssignment (length (st_dicts st))) | Raise e => Raise e end,
       mkState (st_dicts st ++ [d']) nid' (st_calls st))
  end.
Proof.
  unfold incremental, bind at 1. rewrite Assignment_copy_run.
  unfold bind. rewrite Assignment_update_fresh.
  destruct (flows_on _ fl []) as [fls|e]; [|done].
  destruct (apply_flows_on _ _ _) as [[[[]|e] d'] nid']; done.
Qed.

(** The lookups in the parts the update leaves and in the parts built from
    the full mapping agree. *)
Lemma update_agrees_with_scratch d fl fls nid d' nid' nid0 n :
  parts_ok d ->
  NoDup (dict_keys fl) ->
  flows_on d fl [] = Ok fls ->
  apply_flows_on fls d nid = (Ok tt, d', nid') ->
  find_part d' n = find_part (freeze_on (level_sets (full_mapping d fl)) nid0) n.
Proof.
  intros Hok Hfl Hflows Happ.
  rewrite (update_find_part _ _ _ _ _ _ _ Hok Hfl Hflows Happ).
  rewrite level_sets_find_part
    by (apply dict_update_NoDup, dict_of_items_NoDup).
  rewrite full_mapping_get by done.
  destruct (find_part d n) as [s|] eqn:Hs; simpl.
  - by destruct (dict_get fl n).
  - destruct (dict_get fl n) as [t|] eqn:Ht; [|done].
    apply dict_get_Some_elem in Ht.
    destruct (flows_on_Ok_inv _ _ _ _ Hflows _ _ Ht) as [s Hs']. congruence.
Qed.

Lemma Assignment_getitem_fst a n st :
  (Assignment_getitem a n st).1 =
  match find_part (deref st (parts_ref a)) n with
  | Some p => Ok p
  | None => Raise (KeyError (KNode n))
  end.
Proof. by rewrite Assignment_getitem_run. Qed.

(** ** Roots *)

(** A root built from a dict: its assignment is a new object that holds the
    level sets of the dict. *)
Lemma Partition_init_dict_inv g (m : list (Node * Part)) ups st P st' :
  Partition_init g (ArgDict m) ups None None st = (Ok P, st') ->
  st_dicts st' = st_dicts st ++ [freeze_on (level_sets m) (S (st_next_id st))] /\
  assignment (pdata P) = mkAssignment (length (st_dicts st)) /\
  parts_of st' P = freeze_on (level_sets m) (S (st_next_id st)) /\
  parts (pdata P) =
    PartsKeys (dict_keys (level_sets (parts_items (parts_of st' P)))) /\
  graph (pdata P) = g.
Proof.
  rewrite Partition_init_root by done. intros Hrun.
  apply bind_Ok_inv in Hrun as (P1 & st1 & Hft & Hrun).
  apply Partition_first_time_inv in Hft as (Hc1 & Hn1 & _ & HP1).
  destruct (HP1 _ eq_refl) as (Hpid & Hg & _ & _ & Hparts & Ha & Hd1).
  apply bind_Ok_inv in Hrun as (P2 & st2 & Hup & Hrun).
  apply Partition_update_inv in Hup as (Hd2 & Hn2 & new & Hc2 & _ & HP2).
  destruct (HP2 _ eq_refl) as (Hu & Hs & _).
  pose proof (f_equal assignment Hs) as Ha2.
  pose proof (f_equal graph Hs) as Hg2.
  pose proof (f_equal parts Hs) as Hp2.
  simpl in *. unfold bind, lift, ret in Hrun. rewrite Hp2, Hparts in Hrun.
  simpl in Hrun. injection Hrun as <- <-. simpl.
  assert (deref st2 (parts_ref (assignment (pdata P2))) =
          freeze_on (level_sets m) (S (st_next_id st))) as Hderef.
  { rewrite Ha2, Ha. simpl. unfold deref. rewrite Hd2, Hd1.
    by rewrite list_lookup_middle. }
  unfold parts_of. simpl. split_and!; try congruence.
  rewrite Hderef. f_equal. f_equal. f_equal. f_equal.
  rewrite Ha. simpl. unfold deref. rewrite Hd1. by rewrite list_lookup_middle.
Qed.

Lemma parts_items_keys d p :
  NoDup (dict_keys d) ->
  p ∈ dict_keys (level_sets (parts_items d)) <-> exists n, in_part d p n.
Proof.
  intros Hnd. unfold level_sets. rewrite level_sets_fold_keys. split.
  - intros [Hin|Hin]; [by apply elem_of_nil in Hin|].
    apply list_elem_of_fmap in Hin as ([p' n] & Hp & Hin).
    apply list_elem_of_fmap in Hin as ([n' p''] & Heq & Hin).
    simpl in *. simplify_eq. exists n'. by apply parts_items_elem.
  - intros (n & Hin). right. apply list_elem_of_fmap. exists (p, n).
    split; [done|]. apply list_elem_of_fmap. exists (n, p).
    split; [done | by apply parts_items_elem].
Qed.

(** ** Reachable partitions *)

(** What holds of every reachable partition: its assignment is an object of
    the store, its parts partition the nodes of the graph, and it has a part
    label when the graph has a node. *)
Lemma reachable_inv (g : Graph) st P :
  reachable g st P ->
  allocated st (assignment (pdata P)) /\
  parts_ok (parts_of st P) /\
  partitions_nodes (parts_of st P) (graph_nodes g) /\
  (forall n, n ∈ graph_nodes g -> Partition_len (pdata P) <> 0).
Proof.
  induction 1 as [m ups st P st' Hnd Htotal Hrun
                 |P fl st P' st' Hreach IH Hnd Hdelta Hrun
                 |P st st' Hreach IH Hstep].
  - apply Partition_init_dict_inv in Hrun as (Hd & Ha & Hparts & Hfield & _).
    pose proof (level_sets_parts_ok m (S (st_next_id st)) Hnd) as Hok.
    assert (forall p n, in_part (parts_of st' P) p n <-> (n, p) ∈ m) as Hin.
    { intros p n. rewrite Hparts. by rewrite in_part_freeze_on, level_sets_elem. }
    split_and!.
    + unfold allocated. rewrite Ha, Hd, length_app. simpl. lia.
    + by rewrite Hparts.
    + split.
      * intros n Hn. apply Htotal, list_elem_of_fmap in Hn as ([n' p] & -> & Hel).
        exists p. split; [by apply Hin|]. intros q Hq%Hin.
        apply (dict_elem_get _ _ _ Hnd) in Hel, Hq. simpl in *. congruence.
      * intros p n Hpn%Hin. apply Htotal, list_elem_of_fmap. by exists (n, p).
    + intros n Hn. apply Htotal, list_elem_of_fmap in Hn as ([n' p] & -> & Hel).
      unfold Partition_len. rewrite Hfield.
      assert (p ∈ dict_keys (level_sets (parts_items (parts_of st' P)))) as Hp.
      { apply parts_items_keys; [rewrite Hparts; apply Hok|].
        exists n'. by apply Hin. }
      intros Hzero%nil_length_inv. rewrite Hzero in Hp. by apply elem_of_nil in Hp.
  - destruct IH as (Halloc & Hok & [Hcover Honly] & Hlen).
    apply Partition_merge_inv in Hrun
      as (_ & fls & d' & nid' & Hfl & Happ & Hd & Ha & Hparts & _ & _ & Hfield & _).
    assert (forall p n, in_part d' p n <->
              exists s, find_part (parts_of st P) n = Some s /\
                        default s (dict_get fl n) = p) as Hin.
    { intros p n. by apply (update_in_part _ _ _ _ _ _ _ _ Hok Hnd Hfl Happ). }
    pose proof (update_parts_ok _ _ _ _ _ _ Hok Hnd Hfl Happ) as Hok'.
    rewrite Hparts. split_and!.
    + unfold allocated. rewrite Ha, Hd, length_app. simpl. lia.
    + done.
    + split.
      * intros n Hn. destruct (Hcover n Hn) as (s & Hs & _).
        exists (default s (dict_get fl n)). split.
        -- apply Hin. exists s. split; [by apply in_part_find_part | done].
        -- intros q Hq. destruct Hok' as [_ Hdis]. eapply Hdis; [done|].
           apply Hin. exists s. split; [by apply in_part_find_part | done].
      * intros p n (s & Hs & _)%Hin. eapply Honly.
        apply find_part_in_part; [apply Hok | done].
    + intros n Hn. unfold Partition_len. rewrite Hfield. by eapply Hlen.
  - destruct IH as (Halloc & Hok & Hpart & Hlen).
    apply api_step_extends in Hstep.
    assert (parts_of st' P = parts_of st P) as ->
      by (by apply extends_deref).
    split_and!; [by eapply extends_allocated | done..].
Qed.

(** ** The incremental update and the rebuild from scratch *)

Lemma Assignment_from_dict_deref (m : list (Node * Part)) st0 a st1 :
  Assignment_from_dict m st0 = (Ok a, st1) ->
  deref st1 (parts_ref a) = freeze_on (level_sets m) (st_next_id st0).
Proof.
  rewrite Assignment_from_dict_run. intros [= <- <-]. simpl.
  unfold deref. simpl. by rewrite list_lookup_middle.
Qed.

Lemma flows_on_keys_in_parts d fl fls :
  flows_on d fl [] = Ok fls ->
  (forall n t, (n, t) ∈ fl -> t ∈ dict_keys d) ->
  forall p, p ∈ dict_keys fls -> p ∈ dict_keys d.
Proof.
  intros Hfl Htargets p Hp.
  apply (flows_on_keys _ _ _ _ Hfl) in Hp as [Hp|(n & s & t & Hin & Hs & _ & [->| ->])].
  - by apply elem_of_nil in Hp.
  - apply find_part_Some_elem in Hs as (fs & Hel & _).
    apply list_elem_of_fmap. by exists (s, fs).
  - by eapply Htargets.
Qed.

(** C1. For every partition [P] whose parts are well formed and every delta
    [fl], the assignment that [P.merge(fl)] holds gives every node the part
    that the assignment built by [Assignment.from_dict] from the full mapping
    ([P]'s assignment overridden with [fl]) gives it; nodes outside both
    raise the same KeyError.  The same holds of the incremental path alone
    (copy, then update), which returns whenever the delta names assigned
    nodes and existing labels. *)
Theorem merge_agrees_with_from_dict P fl st :
  partition_ok st P ->
  NoDup (dict_keys fl) ->
  ((forall n t, (n, t) ∈ fl ->
      is_Some (find_part (parts_of st P) n) /\ t ∈ dict_keys (parts_of st P)) ->
   exists a' st', incremental (assignment (pdata P)) fl st = (Ok a', st')) /\
  (forall a' st',
     incremental (assignment (pdata P)) fl st = (Ok a', st') ->
     forall st0 a st1,
       Assignment_from_dict (full_mapping (parts_of st P) fl) st0 = (Ok a, st1) ->
       forall n, (Assignment_getitem a' n st').1 = (Assignment_getitem a n st1).1) /\
  (forall P' st',
     Partition_merge P fl st = (Ok P', st') ->
     forall st0 a st1,
       Assignment_from_dict (full_mapping (parts_of st P) fl) st0 = (Ok a, st1) ->
       forall n,
         (Assignment_getitem (assignment (pdata P')) n st').1 =
         (Assignment_getitem a n st1).1).
Proof.
  intros [Halloc Hok] Hnd. fold (parts_of st P). split_and!.
  - intros Hdelta. rewrite incremental_run. fold (parts_of st P).
    destruct (flows_on_Ok (parts_of st P) fl []) as [fls Hfl].
    { intros n t Hin. by apply (Hdelta n t). }
    rewrite Hfl.
    destruct (apply_flows_on_Ok fls (parts_of st P) (st_next_id st)) as (d' & nid' & ->).
    { eapply flows_on_keys_in_parts; [done|]. intros n t Hin. by apply (Hdelta n t). }
    by eexists _, _.
  - intros a' st'. rewrite incremental_run. fold (parts_of st P).
    destruct (flows_on (parts_of st P) fl []) as [fls|e] eqn:Hfl; [|done].
    destruct (apply_flows_on fls _ _) as [[[[]|e] d'] nid'] eqn:Happ; [|done].
    intros [= <- <-] st0 a st1 Hscratch n.
    rewrite !Assignment_getitem_fst. simpl.
    rewrite (Assignment_from_dict_deref _ _ _ _ Hscratch).
    pose proof (deref_alloc (mkState (st_dicts st) nid' (st_calls st)) d') as Hd'.
    simpl in Hd'. rewrite Hd'.
    by rewrite (update_agrees_with_scratch _ _ _ _ _ _ (st_next_id st0) n Hok Hnd Hfl Happ).
  - intros P' st' Hmerge st0 a st1 Hscratch n.
    apply Partition_merge_inv in Hmerge
      as (_ & fls & d' & nid' & Hfl & Happ & _ & _ & Hparts & _).
    rewrite !Assignment_getitem_fst. fold (parts_of st' P'). rewrite Hparts.
    rewrite (Assignment_from_dict_deref _ _ _ _ Hscratch).
    by rewrite (update_agrees_with_scratch _ _ _ _ _ _ (st_next_id st0) n Hok Hnd Hfl Happ).
Qed.

(** C2. For every partition reachable by root construction from a total
    node-to-part mapping followed by merges whose deltas mention nodes of
    the graph and existing labels only, every node of the graph is in the
    set of exactly one part, and the sets hold no other node. *)
Theorem reachable_parts_partition_nodes (g : Graph) st P :
  reachable g st P ->
  (forall n, n ∈ graph_nodes g ->
     exists p, in_part (parts_of st P) p n /\
               forall q, in_part (parts_of st P) q n -> q = p) /\
  (forall p n, in_part (parts_of st P) p n -> n ∈ graph_nodes g).
Proof.
  intros Hreach. by destruct (reachable_inv _ _ _ Hreach) as (_ & _ & Hpart & _).
Qed.

(** ** The updater cache of a constructed partition *)




(** ** Flows with a node on both sides *)


(** ** The parent of a merge *)

(** C8. For every partition [P] and every delta, whether the merge returns
    or raises, the dict of [P]'s assignment holds after it what it held
    before, the very same frozenset objects, so [P] maps every node as
    before; the child's assignment is another dict object, and each of its
    frozensets is one of [P]'s or an object made during the merge. *)
Theorem merge_leaves_parent_unchanged P fl st r st' :
  allocated st (assignment (pdata P)) ->
  Partition_merge P fl st = (r, st') ->
  parts_of st' P = parts_of st P /\
  (forall n,
     (Assignment_getitem (assignment (pdata P)) n st').1 =
     (Assignment_getitem (assignment (pdata P)) n st).1) /\
  forall P', r = Ok P' ->
    parts_ref (assignment (pdata P')) <> parts_ref (assignment (pdata P)) /\
    forall p fs,
      dict_get (parts_of st' P') p = Some fs ->
      dict_get (parts_of st P) p = Some fs \/ st_next_id st <= fs_id fs.
Proof.
  intros Halloc Hmerge.
  assert (parts_of st' P = parts_of st P) as Hsame.
  { apply extends_deref; [|done]. by eapply Partition_init_extends. }
  split_and!.
  - done.
  - intros n. rewrite !Assignment_getitem_fst. fold (parts_of st' P) (parts_of st P).
    by rewrite Hsame.
  - intros P' ->.
    apply Partition_merge_inv in Hmerge
      as (_ & fls & d' & nid' & _ & Happ & _ & Ha & Hparts & _).
    split.
    + rewrite Ha. simpl. unfold allocated in Halloc. lia.
    + intros p fs Hget. rewrite Hparts in Hget.
      destruct (apply_flows_on_objects _ _ _ _ _ _ _ _ Happ Hget) as [?|?];
        [by left | right; lia].
Qed.

(** ** Arguments that are no assignment *)

(** C9. For every root construction whose [assignment] argument is neither
    a string, nor a dict, nor an [Assignment] ([None] is one such), the
    constructor raises [TypeError] and returns no partition; no dict was
    allocated and no updater was called. *)
Theorem init_rejects_bad_assignment g (arg : AssignmentArg) ups ofl st :
  is_assignment_source arg = false ->
  exists st',
    Partition_init (Value := Value) g arg ups None ofl st =
      (Raise (TypeError "Assignment must be a dict or a node attribute key"), st') /\
    st_dicts st' = st_dicts st /\
    st_calls st' = st_calls st.
Proof.
  intros Harg. destruct arg; try discriminate; by eexists.
Qed.

(** ** Deltas that name a new label *)

Lemma find_part_keys d n s : find_part d n = Some s -> s ∈ dict_keys d.
Proof.
  intros (fs & Hel & _)%find_part_Some_elem.
  apply list_elem_of_fmap. by exists (s, fs).
Qed.

Lemma apply_flows_on_new_label fls d nid p :
  p ∈ dict_keys fls -> p ∉ dict_keys d ->
  exists q d' nid',
    apply_flows_on fls d nid = (Raise (KeyError (KPart q)), d', nid') /\
    q ∈ dict_keys fls /\ q ∉ dict_keys d.
Proof.
  intros Hp Hnot. destruct (apply_flows_on fls d nid) as [[[[]|e] d'] nid'] eqn:Happ.
  - exfalso. apply Hnot. by eapply apply_flows_on_Ok_inv.
  - apply apply_flows_on_Raise in Happ as (q & -> & Hq & Hqnot).
    by exists q, d', nid'.
Qed.

Lemma flows_on_new_label d fl fls n p :
  (n, p) ∈ fl -> p ∉ dict_keys d -> flows_on d fl [] = Ok fls ->
  p ∈ dict_keys fls /\
  forall q, q ∈ dict_keys fls -> q ∉ dict_keys d -> exists n', (n', q) ∈ fl.
Proof.
  intros Hin Hnot Hfl. split.
  - destruct (flows_on_Ok_inv _ _ _ _ Hfl _ _ Hin) as [s Hs].
    apply (flows_on_keys _ _ _ _ Hfl). right. exists n, s, p.
    split_and!; [done | done | | by right].
    intros ->. by apply Hnot, (find_part_keys _ n).
  - intros q Hq Hqnot.
    apply (flows_on_keys _ _ _ _ Hfl) in Hq
      as [Hq|(n' & s & t & Hin' & Hs & _ & [->| ->])].
    + by apply elem_of_nil in Hq.
    + exfalso. by apply Hqnot, (find_part_keys _ n').
    + by exists n'.
Qed.

(** C10. For every delta that assigns some node to a label that is no key
    of the parts: [Assignment.update] raises a KeyError, and when every node
    of the delta is assigned the KeyError is for a label of the delta that
    is no key, raised when the old set of that part is read; a merge of a
    reachable partition with such a delta for a node of the graph raises a
    KeyError too.  No part is created. *)
Theorem new_label_raises_KeyError fl n p :
  (n, p) ∈ fl ->
  (forall a st,
     p ∉ dict_keys (deref st (parts_ref a)) ->
     exists key st',
       Assignment_update a fl st = (Raise (KeyError key), st') /\
       ((forall n' t, (n', t) ∈ fl -> is_Some (find_part (deref st (parts_ref a)) n')) ->
        exists q n',
          key = KPart q /\ (n', q) ∈ fl /\ q ∉ dict_keys (deref st (parts_ref a)))) /\
  (forall (g : Graph) P st,
     reachable g st P ->
     n ∈ graph_nodes g ->
     p ∉ dict_keys (parts_of st P) ->
     exists key st', Partition_merge P fl st = (Raise (KeyError key), st')).
Proof.
  intros Hin. split.
  - intros [l] st Hnot. simpl in *. unfold Assignment_update, bind.
    rewrite flows_from_changes_run. simpl.
    destruct (flows_on (deref st l) fl []) as [fls|e] eqn:Hfl.
    + destruct (flows_on_new_label _ _ _ _ _ Hin Hnot Hfl) as [Hp Htargets].
      assert (l < length (st_dicts st)) as Hl.
      { destruct (flows_on_Ok_inv _ _ _ _ Hfl _ _ Hin) as [s Hs].
        unfold deref in Hs. destruct (st_dicts st !! l) eqn:E; [|done].
        by eapply lookup_lt_Some. }
      rewrite apply_flows_run by done.
      destruct (apply_flows_on_new_label fls (deref st l) (st_next_id st) p Hp Hnot)
        as (q & d' & nid' & -> & Hq & Hqnot).
      eexists _, _. split; [done|]. intros _.
      destruct (Htargets q Hq Hqnot) as [n' Hn']. by exists q, n'.
    + apply flows_on_Raise in Hfl as (n' & t & Hin' & Hnone & ->).
      eexists _, _. split; [done|]. intros Hall.
      destruct (Hall n' t Hin') as [s Hs]. congruence.
  - intros g P st Hreach Hn Hnot.
    destruct (reachable_inv _ _ _ Hreach) as (_ & _ & _ & Hlen).
    unfold Partition_merge. rewrite Partition_init_child by by eapply Hlen.
    unfold bind at 1, Partition_from_parent, bind at 1.
    rewrite Assignment_copy_run. unfold bind at 1.
    rewrite Assignment_update_fresh. simpl.
    fold (parts_of (mkState (st_dicts st) (S (st_next_id st)) (st_calls st)) P).
    rewrite parts_of_next_id.
    destruct (flows_on (parts_of st P) fl []) as [fls|e] eqn:Hfl.
    + destruct (flows_on_new_label _ _ _ _ _ Hin Hnot Hfl) as [Hp _].
      destruct (apply_flows_on_new_label fls (parts_of st P) (S (st_next_id st)) p Hp Hnot)
        as (q & d' & nid' & -> & _).
      by eexists _, _.
    + apply flows_on_Raise in Hfl as (n' & t & _ & _ & ->). by eexists _, _.
Qed.

(** * Further properties *)

(** ** Building an assignment and reading it back *)

(** X1. [Assignment.from_dict] never raises, and the assignment it builds
    from a dict answers [a[node]] with the dict's value for every key of the
    dict and with [KeyError(node)] for every other node, without changing
    the store. *)
Theorem from_dict_then_getitem (m : list (Node * Part)) st :
  NoDup (dict_keys m) ->
  exists a st',
    Assignment_from_dict m st = (Ok a, st') /\
    allocated st' a /\
    forall n,
      Assignment_getitem a n st' =
      (match dict_get m n with
       | Some p => Ok p
       | None => Raise (KeyError (KNode n))
       end, st').
Proof.
  intros Hnd. rewrite Assignment_from_dict_run. eexists _, _. split; [done|].
  split.
  - unfold allocated. simpl. rewrite length_app. simpl. lia.
  - intros n. rewrite Assignment_getitem_run. simpl.
    pose proof (deref_alloc
                  (mkState (st_dicts st) (st_next_id st + length (level_sets m)) (st_calls st))
                  (freeze_on (level_sets m) (st_next_id st))) as Hd.
    simpl in Hd. rewrite Hd. by rewrite level_sets_find_part.
Qed.

(** X2. [level_sets] groups the sources by target: a source is in the set of
    a target exactly when the pair is an item, no target is a key twice, the
    keys are the targets that occur, and no set is empty. *)
Theorem level_sets_groups_by_target (items : list (Node * Part)) :
  NoDup (dict_keys (level_sets items)) /\
  (forall p n, n ∈ default ∅ (dict_get (level_sets items) p) <-> (n, p) ∈ items) /\
  (forall p, p ∈ dict_keys (level_sets items) <-> exists n, (n, p) ∈ items) /\
  (forall p s, dict_get (level_sets items) p = Some s -> s <> ∅).
Proof.
  assert (forall p, p ∈ dict_keys (level_sets items) <-> exists n, (n, p) ∈ items)
    as Hkeys.
  { intros p. unfold level_sets. rewrite level_sets_fold_keys. split.
    - intros [Hin|Hin]; [by apply elem_of_nil in Hin|].
      apply list_elem_of_fmap in Hin as ([p' n] & Hp & Hin).
      apply list_elem_of_fmap in Hin as ([n' p''] & Heq & Hin).
      simpl in *. simplify_eq. by exists n'.
    - intros [n Hin]. right. apply list_elem_of_fmap. exists (p, n).
      split; [done|]. apply list_elem_of_fmap. by exists (n, p). }
  split_and!.
  - apply level_sets_NoDup.
  - apply level_sets_elem.
  - done.
  - intros p s Hget Hempty.
    destruct (proj1 (Hkeys p)) as [n Hn]; [by eapply dict_get_Some_keys|].
    apply level_sets_elem in Hn. rewrite Hget in Hn. simpl in Hn.
    rewrite Hempty in Hn. by apply not_elem_of_empty in Hn.
Qed.

Lemma parts_items_NoDup d : NoDup (dict_keys d) -> NoDup (parts_items d).
Proof.
  induction d as [|[p fs] d IH]; simpl; intros Hnd; [apply NoDup_nil_2|].
  apply NoDup_cons in Hnd as [Hnot Hnd]. apply NoDup_app. split_and!.
  - apply NoDup_fmap_2; [|apply NoDup_elements]. by intros x y [= ->].
  - intros [n p'] Hin Hin'. apply list_elem_of_fmap in Hin as (n' & [= -> ->] & _).
    apply parts_items_elem in Hin' as (fs' & Hget & _); [|done].
    by apply Hnot, (dict_get_Some_keys d p fs').
  - by apply IH.
Qed.

Lemma dict_NoDup (m : list (Node * Part)) : NoDup (dict_keys m) -> NoDup m.
Proof. apply NoDup_fmap_1. Qed.

(** X3. The items of the assignment built from a dict are the items of the
    dict, each once, in some order. *)
Theorem items_of_from_dict (m : list (Node * Part)) st a st' :
  NoDup (dict_keys m) ->
  Assignment_from_dict m st = (Ok a, st') ->
  exists items,
    Assignment_items a st' = (Ok items, st') /\ items ≡ₚ m.
Proof.
  intros Hnd Hrun. rewrite Assignment_items_run. eexists. split; [done|].
  rewrite (Assignment_from_dict_deref _ _ _ _ Hrun).
  pose proof (level_sets_parts_ok m (st_next_id st) Hnd) as [Hkeys _].
  apply NoDup_Permutation.
  - by apply parts_items_NoDup.
  - by apply dict_NoDup.
  - intros [n p]. rewrite parts_items_elem by done.
    by rewrite in_part_freeze_on, level_sets_elem.
Qed.

(** ** In-place changes of an assignment *)

(** X4. [update_parts] never raises: every part of [new_parts] gets a new
    frozenset of its nodes, a label that was no key becomes one, every other
    part keeps its set, and no other dict of the store changes. *)
Theorem update_parts_sets_parts a (new_parts : list (Part * gset Node)) st :
  allocated st a ->
  NoDup (dict_keys new_parts) ->
  exists st',
    Assignment_update_parts a new_parts st = (Ok tt, st') /\
    (forall p,
       fs_elems <$> dict_get (deref st' (parts_ref a)) p =
       match dict_get new_parts p with
       | Some nodes => Some nodes
       | None => fs_elems <$> dict_get (deref st (parts_ref a)) p
       end) /\
    (forall l, l <> parts_ref a -> deref st' l = deref st l) /\
    st_calls st' = st_calls st.
Proof.
  destruct a as [l]. unfold allocated. simpl.
  revert st. induction new_parts as [|[part nodes] rest IH]; intros st Hl Hnd; simpl.
  - exists st. by split_and!.
  - simpl in Hnd. apply NoDup_cons in Hnd as [Hnot Hnd].
    unfold bind, new_frozenset, bind, fresh_id, ret, read_dict, write_dict. simpl.
    set (fs := mkFrozenSet (st_next_id st) nodes).
    set (st1 := mkState (<[l:=dict_set (deref st l) part fs]> (st_dicts st))
                  (S (st_next_id st)) (st_calls st)).
    change (deref (mkState (st_dicts st) (S (st_next_id st)) (st_calls st)) l)
      with (deref st l).
    fold st1.
    destruct (IH st1) as (st' & Hrun & Hget & Hother & Hcalls).
    { simpl. by rewrite length_insert. }
    { done. }
    exists st'. split; [done|]. split_and!.
    + intros p. rewrite Hget. unfold st1. rewrite deref_insert by done.
      rewrite dict_get_set. destruct (decide (part = p)) as [->|Hne].
      * apply dict_get_None in Hnot. by rewrite Hnot.
      * done.
    + intros l' Hl'. rewrite Hother by done. unfold st1, deref. simpl.
      by rewrite list_lookup_insert_ne.
    + by rewrite Hcalls.
Qed.

(** X5. [update] never adds, removes or reorders a part label, whether it
    returns or raises, and changes no other dict of the store. *)
Theorem update_keeps_labels a fl st r st' :
  allocated st a ->
  Assignment_update a fl st = (r, st') ->
  dict_keys (deref st' (parts_ref a)) = dict_keys (deref st (parts_ref a)) /\
  (forall l, l <> parts_ref a -> deref st' l = deref st l) /\
  st_calls st' = st_calls st.
Proof.
  destruct a as [l]. unfold allocated. simpl. intros Hl.
  unfold Assignment_update, bind. rewrite flows_from_changes_run. simpl.
  destruct (flows_on (deref st l) fl []) as [fls|e]; [|by intros [= _ <-]].
  rewrite apply_flows_run by done.
  destruct (apply_flows_on fls (deref st l) (st_next_id st)) as [[r0 d'] nid'] eqn:Happ.
  intros [= _ <-]. rewrite deref_insert by done. split_and!.
  - by eapply apply_flows_on_keys.
  - intros l' Hl'. unfold deref. simpl. by rewrite list_lookup_insert_ne.
  - done.
Qed.

Lemma apply_flows_on_app fls1 fls2 d nid :
  apply_flows_on (fls1 ++ fls2) d nid =
  match apply_flows_on fls1 d nid with
  | (Ok _, d1, nid1) => apply_flows_on fls2 d1 nid1
  | (Raise e, d1, nid1) => (Raise e, d1, nid1)
  end.
Proof.
  revert d nid. induction fls1 as [|[p f] fls1 IH]; intros d nid; simpl; [done|].
  destruct (dict_get d p); [apply IH | done].
Qed.

(** X6. The loop of [update] is not undone by an error: when the flow names
    a part that is no key after records that apply, the KeyError for that
    part leaves the store as the applied records made it, and the records
    after it are not applied. *)
Theorem apply_flows_stops_at_missing_part a fls1 q (f : Flow Node) fls2 st st1 :
  allocated st a ->
  apply_flows a fls1 st = (Ok tt, st1) ->
  q ∉ dict_keys (deref st (parts_ref a)) ->
  apply_flows a (fls1 ++ (q, f) :: fls2) st = (Raise (KeyError (KPart q)), st1).
Proof.
  destruct a as [l]. unfold allocated. simpl. intros Hl Hrun Hq.
  rewrite apply_flows_run in Hrun |- * by done.
  rewrite apply_flows_on_app.
  destruct (apply_flows_on fls1 (deref st l) (st_next_id st)) as [[r d1] nid1] eqn:Happ.
  injection Hrun as -> <-. simpl.
  rewrite <- (apply_flows_on_keys _ _ _ _ _ _ Happ) in Hq.
  apply dict_get_None in Hq. by rewrite Hq.
Qed.

(** X7. After an [update] that returns, on well-formed parts and with a dict
    as delta, [a[node]] is the delta's label for a node of the delta and the
    old part for every other assigned node; unassigned nodes stay
    unassigned and the parts stay well formed.  ([flows_from_changes] as
    the spec describes it.) *)
Theorem update_then_getitem a fl st st' :
  allocated st a ->
  parts_ok (deref st (parts_ref a)) ->
  NoDup (dict_keys fl) ->
  Assignment_update a fl st = (Ok tt, st') ->
  parts_ok (deref st' (parts_ref a)) /\
  forall n,
    Assignment_getitem a n st' =
    (match find_part (deref st (parts_ref a)) n with
     | Some s => Ok (default s (dict_get fl n))
     | None => Raise (KeyError (KNode n))
     end, st').
Proof.
  destruct a as [l]. unfold allocated. simpl. intros Hl Hok Hnd.
  unfold Assignment_update, bind. rewrite flows_from_changes_run. simpl.
  destruct (flows_on (deref st l) fl []) as [fls|e] eqn:Hfl; [|done].
  rewrite apply_flows_run by done.
  destruct (apply_flows_on fls (deref st l) (st_next_id st)) as [[r0 d'] nid'] eqn:Happ.
  intros [= -> <-]. split.
  - simpl. rewrite deref_insert by done. by eapply update_parts_ok.
  - intros n. rewrite Assignment_getitem_run. simpl. rewrite deref_insert by done.
    rewrite (update_find_part _ _ _ _ _ _ n Hok Hnd Hfl Happ).
    by destruct (find_part (deref st l) n).
Qed.

Lemma flows_on_noop d fl fls :
  (forall n t, (n, t) ∈ fl -> find_part d n = Some t) -> flows_on d fl fls = Ok fls.
Proof.
  induction fl as [|[n t] fl IH]; intros Hall; simpl; [done|].
  rewrite (Hall n t) by apply list_elem_of_here.
  rewrite decide_True by done. apply IH.
  intros n' t' Hin. by apply Hall, list_elem_of_further.
Qed.

(** X8. An [update] whose delta gives every node the part it is in changes
    nothing: no set is replaced and no object is made.  ([flows_from_changes]
    as the spec describes it.) *)
Theorem update_to_current_parts_is_noop a fl st :
  (forall n t, (n, t) ∈ fl -> find_part (deref st (parts_ref a)) n = Some t) ->
  Assignment_update a fl st = (Ok tt, st).
Proof.
  intros Hall. unfold Assignment_update, bind. rewrite flows_from_changes_run.
  by rewrite flows_on_noop.
Qed.

(** ** Edge cases of the constructor *)

(** X9. [merge] on a partition whose [parts] is empty does not take the path
    of [_from_parent]: [if parent:] is false for it, so whatever the delta
    the constructor runs [_first_time] without arguments and raises the
    [TypeError] of [get_assignment]; no dict is allocated and no updater is
    called. *)
Theorem merge_of_partless_partition_raises P fl st :
  Partition_len (pdata P) = 0 ->
  exists st',
    Partition_merge P fl st =
      (Raise (TypeError "Assignment must be a dict or a node attribute key"), st') /\
    st_dicts st' = st_dicts st /\
    st_calls st' = st_calls st.
Proof.
  intros Hlen. unfold Partition_merge.
  rewrite Partition_init_root by (simpl; by rewrite Hlen).
  by eexists.
Qed.

(** X10. A root built from an [Assignment] object holds that very object: no
    dict is allocated for it, so the partition and the caller share the
    parts dict. *)
Theorem root_from_Assignment_shares_it g a ups ofl st P st' :
  Partition_init g (ArgAssignment a) ups None ofl st = (Ok P, st') ->
  assignment (pdata P) = a /\
  st_dicts st' = st_dicts st /\
  parts_of st' P = deref st (parts_ref a).
Proof.
  rewrite Partition_init_root by done. intros Hrun.
  apply bind_Ok_inv in Hrun as (P1 & st1 & Hft & Hrun).
  apply Partition_first_time_inv in Hft as (_ & _ & _ & HP1).
  destruct (HP1 _ eq_refl) as (_ & _ & _ & _ & _ & Ha & ->).
  apply bind_Ok_inv in Hrun as (P2 & st2 & Hup & Hrun).
  apply Partition_update_inv in Hup as (Hd2 & _ & new & _ & _ & HP2).
  destruct (HP2 _ eq_refl) as (_ & Hs & _).
  pose proof (f_equal assignment Hs) as Ha2. simpl in *.
  unfold bind, lift, ret in Hrun.
  destruct (parts_keys _) as [keys|e]; [|done]. injection Hrun as <- <-.
  unfold parts_of. simpl. rewrite Ha2, Ha. split_and!; [done | done |].
  unfold deref. by rewrite Hd2.
Qed.

(** ** Lookups *)

(** X11. [crosses_parts] reads only: it returns [True] exactly when both
    end points are assigned, to different parts, and [False] exactly when
    both are in one part; an unassigned end point raises its KeyError, the
    first end point's first.  So an edge from a node to itself never crosses
    and the answer does not depend on the direction of the edge. *)
Theorem crosses_parts_facts P (u v : Node) st :
  (Partition_crosses_parts P (u, v) st).2 = st /\
  ((Partition_crosses_parts P (u, v) st).1 = Ok true <->
   exists p q, find_part (parts_of st P) u = Some p /\
               find_part (parts_of st P) v = Some q /\ p <> q) /\
  ((Partition_crosses_parts P (u, v) st).1 = Ok false <->
   exists p, find_part (parts_of st P) u = Some p /\
             find_part (parts_of st P) v = Some p) /\
  (find_part (parts_of st P) u = None ->
   (Partition_crosses_parts P (u, v) st).1 = Raise (KeyError (KNode u))) /\
  (is_Some (find_part (parts_of st P) u) -> find_part (parts_of st P) v = None ->
   (Partition_crosses_parts P (u, v) st).1 = Raise (KeyError (KNode v))) /\
  (Partition_crosses_parts P (u, u) st).1 <> Ok true /\
  (is_Some (find_part (parts_of st P) u) -> is_Some (find_part (parts_of st P) v) ->
   (Partition_crosses_parts P (u, v) st).1 = (Partition_crosses_parts P (v, u) st).1).
Proof.
  assert (forall x y,
            (Partition_crosses_parts P (x, y) st).1 =
            match find_part (parts_of st P) x, find_part (parts_of st P) y with
            | Some p, Some q => Ok (negb (bool_decide (p = q)))
            | Some _, None => Raise (KeyError (KNode y))
            | None, _ => Raise (KeyError (KNode x))
            end) as Hrun.
  { intros x y. unfold Partition_crosses_parts, crosses, bind, parts_of.
    rewrite Assignment_getitem_run. simpl.
    destruct (find_part _ x); [|done].
    rewrite Assignment_getitem_run. by destruct (find_part _ y). }
  split; [apply crosses_run|]. rewrite !Hrun.
  destruct (find_part (parts_of st P) u) as [p|] eqn:Hu;
    destruct (find_part (parts_of st P) v) as [q|] eqn:Hv; simpl.
  - destruct (decide (p = q)) as [->|Hne].
    + rewrite !bool_decide_true by done. simpl.
      split_and!; try done; naive_solver.
    + rewrite (bool_decide_false (p = q)) by done.
      rewrite (bool_decide_false (q = p)) by congruence.
      rewrite bool_decide_true by done. simpl.
      split_and!; try done; naive_solver.
  - rewrite bool_decide_true by done. simpl.
    split_and!; try done; naive_solver.
  - split_and!; try done; naive_solver.
  - split_and!; try done; naive_solver.
Qed.

Lemma Partition_init_cache_keys g arg ups par ofl st P st' :
  Partition_init g arg ups par ofl st = (Ok P, st') ->
  forall k, k ∈ dict_keys (_cache (pdata P)) <-> k ∈ dict_keys (updaters P).
Proof.
  assert (forall P1 st1 P2 st2,
            Partition_update P1 st1 = (Ok P2, st2) ->
            updaters P2 = updaters P1 /\
            forall k, k ∈ dict_keys (_cache (pdata P2)) <-> k ∈ dict_keys (updaters P1))
    as Hupdate.
  { intros P1 st1 P2 st2 Hup. unfold Partition_update in Hup.
    apply update_loop_inv in Hup as (_ & _ & new & _ & _ & HP2).
    destruct (HP2 _ eq_refl) as (Hu & _ & Hk & _). simpl in *. split; [done|].
    intros k. rewrite Hk. split; [intros [Hin|]; [by apply elem_of_nil in Hin | done] | by right]. }
  destruct (truthy_cases par) as [Hpar|(P0 & -> & Hlen)].
  - rewrite Partition_init_root by done. intros Hrun.
    apply bind_Ok_inv in Hrun as (P1 & st1 & _ & Hrun).
    apply bind_Ok_inv in Hrun as (P2 & st2 & Hup & Hrun).
    destruct (Hupdate _ _ _ _ Hup) as [Hu Hk].
    unfold bind, lift, ret in Hrun.
    destruct (parts_keys _) as [keys|e]; [|done]. injection Hrun as <- <-. simpl.
    intros k. by rewrite Hu, Hk.
  - rewrite Partition_init_child by done. intros Hrun.
    apply bind_Ok_inv in Hrun as (P1 & st1 & _ & Hup).
    destruct (Hupdate _ _ _ _ Hup) as [Hu Hk]. intros k. by rewrite Hu, Hk.
Qed.

(** X12. On a constructed partition, the lookup of a name that is not
    registered raises [KeyError(name)]; nothing is cached or called for
    it. *)
Theorem getitem_unregistered_raises g arg ups par ofl st P st' name :
  Partition_init g arg ups par ofl st = (Ok P, st') ->
  name ∉ dict_keys (updaters P) ->
  forall st2, Partition_getitem P name st2 = (Raise (KeyError (KName name)), st2).
Proof.
  intros Hrun Hname st2.
  pose proof (Partition_init_cache_keys _ _ _ _ _ _ _ _ Hrun name) as Hk.
  unfold Partition_getitem, bind.
  assert (dict_mem (_cache (pdata P)) name = false) as ->.
  { destruct (dict_mem _ name) eqn:E; [|done]. apply dict_mem_true in E. tauto. }
  unfold call_updater. apply dict_get_None in Hname. by rewrite Hname.
Qed.

(** ** The store under the interface *)

(** X13. No call of the interface (a constructor call of any kind, a lookup
    of an updater value, [crosses_parts]) changes or frees a parts dict that
    exists: every allocated assignment holds afterwards the entries, the
    same frozenset objects, that it held before. *)
Theorem interface_calls_keep_objects st st' a :
  api_step (Value := Value) st st' ->
  allocated st a ->
  allocated st' a /\ deref st' (parts_ref a) = deref st (parts_ref a).
Proof.
  intros Hstep%api_step_extends Halloc.
  split; [by eapply extends_allocated | by apply extends_deref].
Qed.

(** X14. For a reachable partition over a graph, [assignment[node]] returns
    a part for every node of the graph and raises [KeyError(node)] for every
    other node, and [crosses_parts] returns a truth value for every pair of
    graph nodes. *)
Theorem reachable_lookups (g : Graph) st P :
  reachable g st P ->
  (forall n, n ∈ graph_nodes g ->
     exists p, Assignment_getitem (assignment (pdata P)) n st = (Ok p, st)) /\
  (forall n, n ∉ graph_nodes g ->
     Assignment_getitem (assignment (pdata P)) n st = (Raise (KeyError (KNode n)), st)) /\
  (forall u v, u ∈ graph_nodes g -> v ∈ graph_nodes g ->
     exists b, Partition_crosses_parts P (u, v) st = (Ok b, st)).
Proof.
  intros Hreach.
  destruct (reachable_inv _ _ _ Hreach) as (_ & Hok & [Hcover Honly] & _).
  assert (forall n, n ∈ graph_nodes g ->
            exists p, find_part (parts_of st P) n = Some p) as Hfind.
  { intros n Hn. destruct (Hcover n Hn) as (p & Hp & _).
    exists p. by apply in_part_find_part. }
  split_and!.
  - intros n Hn. destruct (Hfind n Hn) as [p Hp]. exists p.
    rewrite Assignment_getitem_run. fold (parts_of st P). by rewrite Hp.
  - intros n Hn. rewrite Assignment_getitem_run. fold (parts_of st P).
    destruct (find_part (parts_of st P) n) as [p|] eqn:Hp; [|done].
    exfalso. eapply Hn, Honly. apply find_part_in_part; [apply Hok | done].
  - intros u v Hu Hv. destruct (Hfind u Hu) as [p Hp], (Hfind v Hv) as [q Hq].
    exists (negb (bool_decide (p = q))).
    unfold Partition_crosses_parts, crosses, bind. simpl.
    rewrite Assignment_getitem_run. fold (parts_of st P). rewrite Hp.
    rewrite Assignment_getitem_run. fold (parts_of st P). by rewrite Hq.
Qed.

(** ** The order of the updaters *)


Lemma set_cache_id (pd : PartitionData Node Part Value) : set_cache pd (_cache pd) = pd.
Proof. by destruct pd. Qed.



Lemma update_loop_error keys P st e st' :
  (forall k, k ∈ keys -> k ∈ dict_keys (updaters P)) ->
  update_loop keys P st = (Raise e, st') ->
  exists name f cache_k before,
    name ∈ keys /\
    dict_get (updaters P) name = Some f /\
    f st' (set_cache (pdata P) cache_k) = Raise e /\
    st_calls st' = st_calls st ++ before ++ [(p_id (pdata P), name)] /\
    st_dicts st' = st_dicts st.
Proof.
  revert P st. induction keys as [|key keys IH]; intros P st Hreg; simpl; [done|].
  assert (forall k, k ∈ keys -> k ∈ dict_keys (updaters P)) as Hreg'
    by (intros k Hk; by apply Hreg, list_elem_of_further).
  destruct (dict_mem (_cache (pdata P)) key).
  - intros Hrun. destruct (IH _ _ Hreg' Hrun) as (name & f & c & before & Hin & ?).
    exists name, f, c, before. split; [by apply list_elem_of_further | done].
  - intros Hrun.
    apply bind_inv in Hrun as [(P1 & st1 & Hcall & Hrun)|(e' & Hcall & [= <-])].
    + apply call_updater_inv in Hcall
        as (Hd1 & Hn1 & [(_ & [=] & _)|(f & Hf & Hc1 & HP1)]).
      destruct (f st1 (pdata P)) as [v|e'] eqn:Hfv; [injection HP1 as ->|done].
      destruct (IH (mkPartition
                      (set_cache (pdata P) (dict_set (_cache (pdata P)) key v))
                      (updaters P)) st1 Hreg' Hrun)
        as (name & f' & c & before & Hin & Hf' & Hraise & Hcalls & Hd).
      simpl in *.
      exists name, f', c, ((p_id (pdata P), key) :: before).
      split_and!; [by apply list_elem_of_further | done | done | | congruence].
      rewrite Hcalls, Hc1, <- !app_assoc. done.
    + apply call_updater_inv in Hcall
        as (Hd1 & Hn1 & [(_ & _ & Hnone)|(f & Hf & Hc1 & HP1)]).
      * apply dict_get_None in Hnone. exfalso. apply Hnone, Hreg, list_elem_of_here.
      * destruct (f st' (pdata P)) as [v|e'] eqn:Hfv; [done|]. injection HP1 as ->.
        exists key, f, (_cache (pdata P)), [].
        rewrite set_cache_id. split_and!; [apply list_elem_of_here | done..].
Qed.

(** X16. When [_update] raises, the error is the one that a registered
    updater raised for this partition; that call is the last of the trace,
    no updater after it is called, and no dict of the store has changed. *)
Theorem update_error_is_an_updater_error P st e st' :
  Partition_update P st = (Raise e, st') ->
  exists name f cache_k before,
    dict_get (updaters P) name = Some f /\
    f st' (set_cache (pdata P) cache_k) = Raise e /\
    st_calls st' = st_calls st ++ before ++ [(p_id (pdata P), name)] /\
    st_dicts st' = st_dicts st.
Proof.
  unfold Partition_update. intros Hrun.
  apply update_loop_error in Hrun as (name & f & c & before & _ & Hf & He & Hc & Hd);
    [|done].
  by exists name, f, c, before.
Qed.

(** ** The attribute [parts] *)

Lemma level_sets_fold_block_in sets p (l : list Node) :
  p ∈ dict_keys sets ->
  dict_keys (fold_left level_sets_add (map (fun n => (n, p)) l) sets) = dict_keys sets.
Proof.
  revert sets. induction l as [|n l IH]; intros sets Hp; simpl; [done|].
  rewrite IH.
  - unfold level_sets_add. simpl. by apply dict_keys_set_in.
  - unfold level_sets_add. simpl. apply dict_keys_set_elem. by right.
Qed.

Lemma level_sets_fold_block_new sets p (l : list Node) :
  p ∉ dict_keys sets -> l <> [] ->
  dict_keys (fold_left level_sets_add (map (fun n => (n, p)) l) sets) =
  dict_keys sets ++ [p].
Proof.
  intros Hp Hl. destruct l as [|n l]; [done|]. simpl.
  rewrite level_sets_fold_block_in.
  - unfold level_sets_add. simpl. rewrite dict_keys_set. unfold dict_mem.
    apply dict_get_None in Hp. by rewrite Hp.
  - unfold level_sets_add. simpl. apply dict_keys_set_elem. by left.
Qed.

Lemma level_sets_fold_parts_items d sets :
  NoDup (dict_keys sets ++ dict_keys d) ->
  (forall p fs, (p, fs) ∈ d -> fs_elems fs <> ∅) ->
  dict_keys (fold_left level_sets_add (parts_items d) sets) =
  dict_keys sets ++ dict_keys d.
Proof.
  revert sets. induction d as [|[p fs] d IH]; intros sets Hnd Hne; simpl.
  - by rewrite app_nil_r.
  - rewrite fold_left_app. simpl in Hnd.
    assert (p ∉ dict_keys sets) as Hp.
    { apply NoDup_app in Hnd as (_ & Hdis & _). intros Hin.
      eapply Hdis; [done | apply list_elem_of_here]. }
    rewrite IH.
    + rewrite level_sets_fold_block_new; [by rewrite <- app_assoc | done |].
      intros Hnil. apply elements_empty_inv in Hnil.
      apply (Hne p fs); [apply list_elem_of_here|]. by apply leibniz_equiv.
    + rewrite level_sets_fold_block_new; [by rewrite <- app_assoc | done |].
      intros Hnil. apply elements_empty_inv in Hnil.
      apply (Hne p fs); [apply list_elem_of_here|]. by apply leibniz_equiv.
    + intros q fs' Hin. apply (Hne q fs'). by apply list_elem_of_further.
Qed.

Lemma freeze_on_elem sets nid p fs :
  (p, fs) ∈ freeze_on sets nid -> (p, fs_elems fs) ∈ sets.
Proof.
  revert nid. induction sets as [|[p0 nodes] sets IH]; intros nid; simpl.
  - by intros Hin%elem_of_nil.
  - intros [[= -> ->]|Hin]%elem_of_cons.
    + apply list_elem_of_here.
    + apply list_elem_of_further. by eapply IH.
Qed.

Lemma level_sets_items_keys (m : list (Node * Part)) nid :
  dict_keys (level_sets (parts_items (freeze_on (level_sets m) nid))) =
  dict_keys (level_sets m).
Proof.
  unfold level_sets at 1. rewrite level_sets_fold_parts_items; simpl.
  - apply freeze_on_keys.
  - rewrite freeze_on_keys. apply level_sets_NoDup.
  - intros p fs Hin%freeze_on_elem Hempty.
    apply dict_elem_get in Hin; [|apply level_sets_NoDup].
    assert (p ∈ dict_keys (level_sets m)) as Hp by by eapply dict_get_Some_keys.
    unfold level_sets in Hp. apply level_sets_fold_keys in Hp as [Hp|Hp];
      [by apply elem_of_nil in Hp|].
    apply list_elem_of_fmap in Hp as ([p' n] & Hp' & Hp).
    apply list_elem_of_fmap in Hp as ([n' p''] & Heq & Hp).
    simpl in *. simplify_eq.
    apply level_sets_elem in Hp. rewrite Hin in Hp. simpl in Hp.
    rewrite Hempty in Hp. by apply not_elem_of_empty in Hp.
Qed.

Lemma root_parts_field g (m : list (Node * Part)) ups st P st' :
  Partition_init g (ArgDict m) ups None None st = (Ok P, st') ->
  parts (pdata P) = PartsKeys (dict_keys (level_sets m)) /\
  dict_keys (parts_of st' P) = dict_keys (level_sets m).
Proof.
  intros Hrun.
  apply Partition_init_dict_inv in Hrun as (_ & _ & Hparts & Hfield & _).
  rewrite Hfield, Hparts. split.
  - f_equal. apply level_sets_items_keys.
  - apply freeze_on_keys.
Qed.

(** X17. A root built from a dict has as [parts] the tuple of the labels of
    the dict, each once, in the key order of [level_sets] of the dict; these
    are the keys of its assignment's parts, and [len] is their number. *)
Theorem root_parts_are_the_labels g (m : list (Node * Part)) ups st P st' :
  Partition_init g (ArgDict m) ups None None st = (Ok P, st') ->
  parts (pdata P) = PartsKeys (dict_keys (level_sets m)) /\
  dict_keys (parts_of st' P) = dict_keys (level_sets m) /\
  Partition_len (pdata P) = length (dict_keys (level_sets m)) /\
  NoDup (dict_keys (level_sets m)) /\
  (forall p, p ∈ dict_keys (level_sets m) <-> exists n, (n, p) ∈ m).
Proof.
  intros Hrun. destruct (root_parts_field _ _ _ _ _ _ Hrun) as [Hfield Hkeys].
  split_and!; [done | done | | apply level_sets_NoDup |].
  - unfold Partition_len. by rewrite Hfield.
  - intros p. unfold level_sets. rewrite level_sets_fold_keys. split.
    + intros [Hin|Hin]; [by apply elem_of_nil in Hin|].
      apply list_elem_of_fmap in Hin as ([p' n] & Hp & Hin).
      apply list_elem_of_fmap in Hin as ([n' p''] & Heq & Hin).
      simpl in *. simplify_eq. by exists n'.
    + intros [n Hin]. right. apply list_elem_of_fmap. exists (p, n).
      split; [done|]. apply list_elem_of_fmap. by exists (n, p).
Qed.

(** X18. For every reachable partition, [parts] is the tuple of the keys of
    its assignment's parts, in their order, and [len] is their number: a
    merge changes neither, also when a part loses all its nodes. *)
Theorem reachable_parts_are_the_labels (g : Graph) st P :
  reachable g st P ->
  parts (pdata P) = PartsKeys (dict_keys (parts_of st P)) /\
  Partition_len (pdata P) = length (dict_keys (parts_of st P)).
Proof.
  intros Hreach.
  assert (parts (pdata P) = PartsKeys (dict_keys (parts_of st P))) as Hfield.
  { induction Hreach as [m ups st P st' Hnd Htotal Hrun
                        |P fl st P' st' Hreach IH Hnd Hdelta Hrun
                        |P st st' Hreach IH Hstep].
    - destruct (root_parts_field _ _ _ _ _ _ Hrun) as [-> ->]. done.
    - apply Partition_merge_inv in Hrun
        as (_ & fls & d' & nid' & _ & Happ & _ & _ & Hparts & _ & _ & Hfield & _).
      rewrite Hfield, IH, Hparts.
      by rewrite (apply_flows_on_keys _ _ _ _ _ _ Happ).
    - destruct (reachable_inv _ _ _ Hreach) as (Halloc & _).
      apply api_step_extends in Hstep.
      assert (parts_of st' P = parts_of st P) as -> by (by apply extends_deref).
      done. }
  split; [done|]. unfold Partition_len. by rewrite Hfield.
Qed.

(** ** What a child records and shares *)

Lemma Partition_from_parent_flows pid P fl st P1 st1 :
  allocated st (assignment (pdata P)) ->
  Partition_from_parent pid P (Some fl) st = (Ok P1, st1) ->
  flips (pdata P1) = Some fl /\
  parent (pdata P1) = Some (pdata P) /\
  exists fls ef,
    flows (pdata P1) = Some fls /\
    edge_flows (pdata P1) = Some ef /\
    flows_on (parts_of st P) fl [] = Ok fls.
Proof.
  unfold allocated. intros Halloc.
  unfold Partition_from_parent, bind. rewrite Assignment_copy_run.
  fold (parts_of st P). rewrite Assignment_update_fresh.
  destruct (flows_on (parts_of st P) fl []) as [fls|e] eqn:Hfl; [|done].
  destruct (apply_flows_on fls (parts_of st P) (st_next_id st)) as [[r0 d'] nid'].
  destruct r0 as [[]|e]; [|done].
  rewrite flows_from_changes_run.
  assert (deref (mkState (st_dicts st ++ [d']) nid' (st_calls st))
            (parts_ref (assignment (pdata P))) = parts_of st P) as ->.
  { unfold parts_of, deref. simpl. by rewrite lookup_app_l. }
  rewrite Hfl. simpl.
  match goal with
  | |- context [compute_edge_flows ?s _] => set (self := s)
  end.
  destruct (compute_edge_flows self _) as [[ef|e] st2]; [|done].
  intros [= <- <-]. simpl. split_and!; [done | done |]. by exists fls, ef.
Qed.

(** X19. The child that [merge] returns records where it came from: its
    parent is the partition merged, its flips are the delta, its flows are
    the flows of the delta against the parent's assignment (the ones its
    own assignment was updated with), and it has the parent's graph,
    [parts] and updater registry.  ([flows_from_changes] as the spec
    describes it.) *)
Theorem merge_records_its_delta P fl st P' st' :
  allocated st (assignment (pdata P)) ->
  Partition_merge P fl st = (Ok P', st') ->
  parent (pdata P') = Some (pdata P) /\
  flips (pdata P') = Some fl /\
  graph (pdata P') = graph (pdata P) /\
  parts (pdata P') = parts (pdata P) /\
  updaters P' = updaters P /\
  exists fls nid nid',
    flows (pdata P') = Some fls /\
    flows_on (parts_of st P) fl [] = Ok fls /\
    apply_flows_on fls (parts_of st P) nid = (Ok tt, parts_of st' P', nid').
Proof.
  intros Halloc Hmerge.
  pose proof Hmerge as Hinv.
  apply Partition_merge_inv in Hinv
    as (Hlen & fls & d' & nid' & Hfl & Happ & _ & _ & Hparts & Hu & Hg & Hp & Hpar & _).
  unfold Partition_merge in Hmerge. rewrite Partition_init_child in Hmerge by done.
  apply bind_Ok_inv in Hmerge as (P1 & st1 & Hfp & Hup).
  apply Partition_from_parent_flows in Hfp
    as (Hflips & _ & fls' & ef & Hflows & _ & Hfl'); [|done].
  rewrite parts_of_next_id in Hfl'.
  apply Partition_update_inv in Hup as (_ & _ & new & _ & _ & HP').
  destruct (HP' _ eq_refl) as (_ & Hs & _).
  pose proof (f_equal flips Hs) as Hflips'.
  pose proof (f_equal flows Hs) as Hflows'. simpl in *.
  split_and!; try congruence.
  exists fls, (S (st_next_id st)), nid'. split_and!; [congruence | done |].
  by rewrite Hparts.
Qed.

(** X20. A child shares with its parent every frozenset that the delta does
    not touch: for a part that no node of the delta leaves or enters, the
    child's dict holds the very object the parent's dict holds.
    ([flows_from_changes] as the spec describes it.) *)
Theorem merge_shares_untouched_parts P fl st P' st' p :
  Partition_merge P fl st = (Ok P', st') ->
  (forall n t, (n, t) ∈ fl ->
     find_part (parts_of st P) n = Some t \/
     (find_part (parts_of st P) n <> Some p /\ t <> p)) ->
  dict_get (parts_of st' P') p = dict_get (parts_of st P) p.
Proof.
  intros Hmerge Huntouched.
  apply Partition_merge_inv in Hmerge
    as (_ & fls & d' & nid' & Hfl & Happ & _ & _ & Hparts & _).
  rewrite Hparts. eapply apply_flows_on_other; [done|].
  intros Hin. apply (flows_on_keys _ _ _ _ Hfl) in Hin
    as [Hin|(n & s & t & Hel & Hs & Hne & Hp)]; [by apply elem_of_nil in Hin|].
  destruct (Huntouched n t Hel) as [Hsame|[Hnot Htp]]; [congruence|].
  destruct Hp as [->| ->]; congruence.
Qed.

End facts.

(** * The scenario *)

Local Open Scope string_scope.

Lemma initial_assignment_NoDup : NoDup (dict_keys initial_assignment).
Proof. apply (bool_decide_unpack _). by vm_compute. Qed.

Lemma scenario_root_reachable :
  exists root st1,
    build_root None = (Ok root, st1) /\ reachable path_graph st1 root.
Proof.
  eexists _, _. split; [vm_compute; reflexivity|].
  eapply (reach_root path_graph initial_assignment None empty_store).
  - apply initial_assignment_NoDup.
  - done.
  - vm_compute. reflexivity.
Qed.

(** C3. In the scenario, [crosses_parts((2,3))] is true on the root and
    [crosses_parts((1,2))], [crosses_parts((3,4))] are false; the child from
    [merge({2: "B"})] has the parts [A = {1}] and [B = {2,3,4}],
    [crosses_parts((1,2))] is true on it and [crosses_parts((2,3))] false. *)
Theorem scenario_crosses_parts :
  exists root st1 child st2,
    build_root None = (Ok root, st1) /\
    (Partition_crosses_parts root (2, 3) st1).1 = Ok true /\
    (Partition_crosses_parts root (1, 2) st1).1 = Ok false /\
    (Partition_crosses_parts root (3, 4) st1).1 = Ok false /\
    Partition_merge root flip_2_to_B st1 = (Ok child, st2) /\
    dict_keys (parts_of st2 child) = ["A"; "B"] /\
    fs_elems <$> dict_get (parts_of st2 child) "A" = Some {[ 1 ]} /\
    fs_elems <$> dict_get (parts_of st2 child) "B" = Some {[ 2; 3; 4 ]} /\
    (Partition_crosses_parts child (1, 2) st2).1 = Ok true /\
    (Partition_crosses_parts child (2, 3) st2).1 = Ok false.
Proof.
  eexists _, _, _, _. split_and!; vm_compute; reflexivity.
Qed.

(** The spec's [size] updater on the scenario: it works on the root, whose
    [parts] are the level sets while the updaters run, and the merge raises
    [AttributeError], for the child's [parts] is the tuple of the labels. *)
Lemma scenario_size_from_parts_raises :
  exists root st1,
    build_root (Some [("size", size_from_parts)]) = (Ok root, st1) /\
    dict_get (_cache (pdata root)) "size" = Some [("A", 2); ("B", 2)] /\
    parts (pdata root) = PartsKeys ["A"; "B"] /\
    (Partition_merge root flip_2_to_B st1).1 =
      Raise (AttributeError "'tuple' object has no attribute 'items'").
Proof.
  eexists _, _. split_and!; vm_compute; reflexivity.
Qed.

(** C6, as amended.  In the scenario, a registered updater that computes the
    mapping from each part label to the number of its nodes from the parts
    of the partition's assignment yields [{A: 1, B: 3}] on the partition
    from [merge({2: "B"})]; it was called once for that partition, at
    construction, and every lookup returns the cached value without a
    call. *)
Theorem scenario_sizes_after_merge :
  exists root st1 child st2,
    build_root (Some [("size", size_from_assignment)]) = (Ok root, st1) /\
    Partition_merge root flip_2_to_B st1 = (Ok child, st2) /\
    dict_get (_cache (pdata child)) "size" = Some [("A", 1); ("B", 3)] /\
    calls_of (p_id (pdata child)) "size" (st_calls st2) = 1 /\
    forall st,
      Partition_getitem child "size" st = (Ok ([("A", 1); ("B", 3)], child), st).
Proof.
  eexists _, _, _, _. split_and!; vm_compute; reflexivity.
Qed.


(** ** Instances *)

Lemma merge_agrees_with_from_dict_witness :
  exists root st1,
    build_root None = (Ok root, st1) /\
    partition_ok st1 root /\
    NoDup (dict_keys flip_2_to_B) /\
    ((forall n t, (n, t) ∈ flip_2_to_B ->
        is_Some (find_part (parts_of st1 root) n) /\ t ∈ dict_keys (parts_of st1 root)) ->
     exists a' st', incremental (assignment (pdata root)) flip_2_to_B st1 = (Ok a', st')) /\
    (forall a' st',
       incremental (assignment (pdata root)) flip_2_to_B st1 = (Ok a', st') ->
       forall st0 a st2,
         Assignment_from_dict (full_mapping (parts_of st1 root) flip_2_to_B) st0 = (Ok a, st2) ->
         forall n, (Assignment_getitem a' n st').1 = (Assignment_getitem a n st2).1) /\
    (forall P' st',
       Partition_merge root flip_2_to_B st1 = (Ok P', st') ->
       forall st0 a st2,
         Assignment_from_dict (full_mapping (parts_of st1 root) flip_2_to_B) st0 = (Ok a, st2) ->
         forall n,
           (Assignment_getitem (assignment (pdata P')) n st').1 =
           (Assignment_getitem a n st2).1).
Proof.
  destruct scenario_root_reachable as (root & st1 & Hroot & Hreach).
  destruct (reachable_inv _ _ _ Hreach) as (Halloc & Hok & _).
  assert (NoDup (dict_keys flip_2_to_B)) as Hnd
    by (apply (bool_decide_unpack _); by vm_compute).
  exists root, st1. split; [done|]. split; [done|]. split; [done|].
  apply (merge_agrees_with_from_dict root flip_2_to_B st1); done.
Defined.

Lemma reachable_parts_partition_nodes_witness :
  exists root st1,
    build_root None = (Ok root, st1) /\
    reachable path_graph st1 root /\
    (forall n, n ∈ graph_nodes path_graph ->
       exists p, in_part (parts_of st1 root) p n /\
                 forall q, in_part (parts_of st1 root) q n -> q = p) /\
    (forall p n, in_part (parts_of st1 root) p n -> n ∈ graph_nodes path_graph).
Proof.
  destruct scenario_root_reachable as (root & st1 & Hroot & Hreach).
  exists root, st1. split; [done|]. split; [done|].
  apply (reachable_parts_partition_nodes path_graph st1 root). done.
Defined.




Lemma merge_leaves_parent_unchanged_witness :
  exists root st1 r st2,
    build_root None = (Ok root, st1) /\
    allocated st1 (assignment (pdata root)) /\
    Partition_merge root flip_2_to_B st1 = (r, st2) /\
    parts_of st2 root = parts_of st1 root /\
    (forall n,
       (Assignment_getitem (assignment (pdata root)) n st2).1 =
       (Assignment_getitem (assignment (pdata root)) n st1).1) /\
    forall P', r = Ok P' ->
      parts_ref (assignment (pdata P')) <> parts_ref (assignment (pdata root)) /\
      forall p fs,
        dict_get (parts_of st2 P') p = Some fs ->
        dict_get (parts_of st1 root) p = Some fs \/ st_next_id st1 <= fs_id fs.
Proof.
  destruct scenario_root_reachable as (root & st1 & Hroot & Hreach).
  destruct (reachable_inv _ _ _ Hreach) as (Halloc & _).
  destruct (Partition_merge root flip_2_to_B st1) as [r st2] eqn:Hmerge.
  exists root, st1, r, st2. split; [done|]. split; [done|]. split; [done|].
  apply (merge_leaves_parent_unchanged root flip_2_to_B st1 r st2); done.
Defined.

Lemma init_rejects_bad_assignment_witness :
  is_assignment_source (@ArgNone nat string) = false /\
  exists st',
    Partition_init (Value := SizeValue) (Some path_graph) ArgNone None None None empty_store =
      (Raise (TypeError "Assignment must be a dict or a node attribute key"), st') /\
    st_dicts st' = st_dicts empty_store /\
    st_calls st' = st_calls empty_store.
Proof.
  split; [reflexivity|].
  apply (init_rejects_bad_assignment (Some path_graph) ArgNone None None empty_store).
  reflexivity.
Defined.

Lemma new_label_raises_KeyError_witness :
  (2, "C") ∈ [(2, "C")] /\
  (forall a (st : State nat string),
     "C" ∉ dict_keys (deref st (parts_ref a)) ->
     exists key st',
       Assignment_update a [(2, "C")] st = (Raise (KeyError key), st') /\
       ((forall n' t, (n', t) ∈ [(2, "C")] -> is_Some (find_part (deref st (parts_ref a)) n')) ->
        exists q n',
          key = KPart q /\ (n', q) ∈ [(2, "C")] /\ q ∉ dict_keys (deref st (parts_ref a)))) /\
  (forall (g : Graph) (P : Partition nat string SizeValue) st,
     reachable g st P ->
     2 ∈ graph_nodes g ->
     "C" ∉ dict_keys (parts_of st P) ->
     exists key st', Partition_merge P [(2, "C")] st = (Raise (KeyError key), st')).
Proof.
  assert ((2, "C") ∈ [(2, "C")]) as Hin by apply list_elem_of_here.
  split; [done|].
  apply (new_label_raises_KeyError (Value := SizeValue) [(2, "C")] 2 "C"). done.
Defined.

(** ** Instances of the further properties *)

Lemma from_dict_then_getitem_witness :
  NoDup (dict_keys initial_assignment) /\
  exists a st',
    Assignment_from_dict initial_assignment empty_store = (Ok a, st') /\
    allocated st' a /\
    forall n,
      Assignment_getitem a n st' =
      (match dict_get initial_assignment n with
       | Some p => Ok p
       | None => Raise (KeyError (KNode n))
       end, st').
Proof.
  split; [apply initial_assignment_NoDup|].
  apply (from_dict_then_getitem initial_assignment empty_store).
  apply initial_assignment_NoDup.
Defined.

Lemma items_of_from_dict_witness :
  exists a st',
    Assignment_from_dict initial_assignment empty_store = (Ok a, st') /\
    exists items,
      Assignment_items a st' = (Ok items, st') /\ items ≡ₚ initial_assignment.
Proof.
  eexists _, _. split; [vm_compute; reflexivity|].
  eapply (items_of_from_dict initial_assignment empty_store).
  - apply initial_assignment_NoDup.
  - vm_compute. reflexivity.
Defined.

Lemma update_parts_sets_parts_witness :
  allocated one_part_store (mkAssignment 0) /\
  exists st',
    Assignment_update_parts (mkAssignment 0) [("B", {[ 2 ]})] one_part_store = (Ok tt, st') /\
    (forall p,
       fs_elems <$> dict_get (deref st' 0) p =
       match dict_get [("B", ({[ 2 ]} : gset nat))] p with
       | Some nodes => Some nodes
       | None => fs_elems <$> dict_get (deref one_part_store 0) p
       end) /\
    (forall l, l <> 0 -> deref st' l = deref one_part_store l) /\
    st_calls st' = st_calls one_part_store.
Proof.
  assert (allocated one_part_store (mkAssignment 0)) as Halloc
    by (unfold allocated; simpl; lia).
  split; [done|].
  apply (update_parts_sets_parts (mkAssignment 0) [("B", {[ 2 ]})] one_part_store).
  - done.
  - apply (bool_decide_unpack _). by vm_compute.
Defined.

Lemma update_keeps_labels_witness :
  allocated one_part_store (mkAssignment 0) /\
  exists r st',
    Assignment_update (mkAssignment 0) [(1, "B")] one_part_store = (r, st') /\
    dict_keys (deref st' 0) = dict_keys (deref one_part_store 0) /\
    (forall l, l <> 0 -> deref st' l = deref one_part_store l) /\
    st_calls st' = st_calls one_part_store.
Proof.
  assert (allocated one_part_store (mkAssignment 0)) as Halloc
    by (unfold allocated; simpl; lia).
  split; [done|].
  destruct (Assignment_update (mkAssignment 0) [(1, "B")] one_part_store)
    as [r st'] eqn:Hrun.
  exists r, st'. split; [done|].
  apply (update_keeps_labels (mkAssignment 0) [(1, "B")] one_part_store r st'); done.
Defined.

Lemma apply_flows_stops_at_missing_part_witness :
  exists st1,
    allocated one_part_store (mkAssignment 0) /\
    apply_flows (mkAssignment 0) [("A", mkFlow {[ 2 ]} ∅)] one_part_store = (Ok tt, st1) /\
    ("Z" ∉ dict_keys (deref one_part_store 0)) /\
    apply_flows (mkAssignment 0)
      ([("A", mkFlow {[ 2 ]} ∅)] ++ ("Z", mkFlow {[ 3 ]} ∅) :: [("A", mkFlow {[ 4 ]} ∅)])%list
      one_part_store =
    (Raise (KeyError (KPart "Z")), st1).
Proof.
  assert (allocated one_part_store (mkAssignment 0)) as Halloc
    by (unfold allocated; simpl; lia).
  assert ("Z" ∉ dict_keys (deref one_part_store 0)) as Hz
    by (apply (bool_decide_unpack _); by vm_compute).
  assert (exists st1,
            apply_flows (mkAssignment 0) [("A", mkFlow {[ 2 ]} ∅)] one_part_store =
            (Ok tt, st1)) as [st1 Hrun] by (eexists; vm_compute; reflexivity).
  exists st1. split; [done|]. split; [done|]. split; [done|].
  apply (apply_flows_stops_at_missing_part (mkAssignment 0)
           [("A", mkFlow {[ 2 ]} ∅)] "Z" (mkFlow {[ 3 ]} ∅)
           [("A", mkFlow {[ 4 ]} ∅)] one_part_store st1); done.
Defined.

Lemma scenario_assignment_built :
  exists a st1,
    Assignment_from_dict initial_assignment empty_store = (Ok a, st1) /\
    allocated st1 a /\
    parts_ok (deref st1 (parts_ref a)).
Proof.
  eexists _, _. split; [apply Assignment_from_dict_run|]. split.
  - unfold allocated. simpl. lia.
  - rewrite (Assignment_from_dict_deref _ _ _ _
               (Assignment_from_dict_run initial_assignment empty_store)).
    apply level_sets_parts_ok, initial_assignment_NoDup.
Qed.

Lemma update_then_getitem_witness :
  exists a st1 st2,
    allocated st1 a /\
    parts_ok (deref st1 (parts_ref a)) /\
    NoDup (dict_keys flip_2_to_B) /\
    Assignment_update a flip_2_to_B st1 = (Ok tt, st2) /\
    parts_ok (deref st2 (parts_ref a)) /\
    forall n,
      Assignment_getitem a n st2 =
      (match find_part (deref st1 (parts_ref a)) n with
       | Some s => Ok (default s (dict_get flip_2_to_B n))
       | None => Raise (KeyError (KNode n))
       end, st2).
Proof.
  assert (exists a st1 st2,
            allocated st1 a /\ parts_ok (deref st1 (parts_ref a)) /\
            Assignment_update a flip_2_to_B st1 = (Ok tt, st2))
    as (a & st1 & st2 & Halloc & Hok & Hrun).
  { destruct scenario_assignment_built as (a & st1 & Hbuilt & Halloc & Hok).
    rewrite Assignment_from_dict_run in Hbuilt. injection Hbuilt as <- <-.
    eexists _, _, _. split; [exact Halloc|]. split; [exact Hok|].
    vm_compute. reflexivity. }
  assert (NoDup (dict_keys flip_2_to_B)) as Hnd
    by (apply (bool_decide_unpack _); by vm_compute).
  exists a, st1, st2. split; [done|]. split; [done|]. split; [done|]. split; [done|].
  apply (update_then_getitem a flip_2_to_B st1 st2); done.
Defined.

Lemma update_to_current_parts_is_noop_witness :
  (forall n t, (n, t) ∈ [(1, "A")] ->
     find_part (deref one_part_store 0) n = Some t) /\
  Assignment_update (mkAssignment 0) [(1, "A")] one_part_store = (Ok tt, one_part_store).
Proof.
  assert (forall n t, (n, t) ∈ [(1, "A")] ->
            find_part (deref one_part_store 0) n = Some t) as Hall.
  { intros n t [= -> ->]%list_elem_of_singleton. vm_compute. reflexivity. }
  split; [done|].
  apply (update_to_current_parts_is_noop (mkAssignment 0) [(1, "A")] one_part_store).
  exact Hall.
Defined.

Lemma merge_of_partless_partition_raises_witness :
  exists (P : Partition nat string SizeValue) st,
    Partition_init (Some (mkGraph [] [] (fun _ _ => None))) (ArgDict []) None None None
      empty_store = (Ok P, st) /\
    Partition_len (pdata P) = 0 /\
    exists st',
      Partition_merge P [] st =
        (Raise (TypeError "Assignment must be a dict or a node attribute key"), st') /\
      st_dicts st' = st_dicts st /\
      st_calls st' = st_calls st.
Proof.
  eexists _, _. split; [vm_compute; reflexivity|]. split; [reflexivity|].
  apply (merge_of_partless_partition_raises (Value := SizeValue)). reflexivity.
Defined.

Lemma root_from_Assignment_shares_it_witness :
  exists (P : Partition nat string SizeValue) st',
    Partition_init (Some path_graph) (ArgAssignment (mkAssignment 0)) None None None
      one_part_store = (Ok P, st') /\
    assignment (pdata P) = mkAssignment 0 /\
    st_dicts st' = st_dicts one_part_store /\
    parts_of st' P = deref one_part_store 0.
Proof.
  assert (exists (P : Partition nat string SizeValue) st',
            Partition_init (Some path_graph) (ArgAssignment (mkAssignment 0))
              None None None one_part_store = (Ok P, st'))
    as (P & st' & Hrun) by (eexists _, _; vm_compute; reflexivity).
  exists P, st'. split; [done|].
  apply (root_from_Assignment_shares_it (Some path_graph) (mkAssignment 0)
           None None one_part_store P st').
  exact Hrun.
Defined.

Lemma getitem_unregistered_raises_witness :
  exists root st1,
    build_root (Some [("size", size_from_assignment)]) = (Ok root, st1) /\
    ("area" ∉ dict_keys (updaters root)) /\
    forall st2,
      Partition_getitem root "area" st2 = (Raise (KeyError (KName "area")), st2).
Proof.
  assert (exists root st1,
            build_root (Some [("size", size_from_assignment)]) = (Ok root, st1) /\
            "area" ∉ dict_keys (updaters root))
    as (root & st1 & Hroot & Hname).
  { eexists _, _. split; [vm_compute; reflexivity|].
    apply (bool_decide_unpack _). by vm_compute. }
  exists root, st1. split; [done|]. split; [done|].
  apply (getitem_unregistered_raises (Some path_graph) (ArgDict initial_assignment)
           (Some [("size", size_from_assignment)]) None None empty_store root st1 "area");
    done.
Defined.

Lemma interface_calls_keep_objects_witness :
  exists root st1 r st2,
    build_root None = (Ok root, st1) /\
    Partition_merge root flip_2_to_B st1 = (r, st2) /\
    api_step (Value := SizeValue) st1 st2 /\
    allocated st1 (assignment (pdata root)) /\
    allocated st2 (assignment (pdata root)) /\
    deref st2 (parts_ref (assignment (pdata root))) =
    deref st1 (parts_ref (assignment (pdata root))).
Proof.
  destruct scenario_root_reachable as (root & st1 & Hroot & Hreach).
  destruct (reachable_inv _ _ _ Hreach) as (Halloc & _).
  destruct (Partition_merge root flip_2_to_B st1) as [r st2] eqn:Hmerge.
  assert (api_step (Value := SizeValue) st1 st2) as Hstep
    by (eapply step_init; exact Hmerge).
  exists root, st1, r, st2. split; [done|]. split; [done|]. split; [done|]. split; [done|].
  apply (interface_calls_keep_objects (Value := SizeValue) st1 st2
           (assignment (pdata root))); done.
Defined.

Lemma reachable_lookups_witness :
  exists (root : Partition nat string SizeValue) st1,
    reachable path_graph st1 root /\
    (forall n, n ∈ graph_nodes path_graph ->
       exists p, Assignment_getitem (assignment (pdata root)) n st1 = (Ok p, st1)) /\
    (forall n, n ∉ graph_nodes path_graph ->
       Assignment_getitem (assignment (pdata root)) n st1 =
       (Raise (KeyError (KNode n)), st1)) /\
    (forall u v, u ∈ graph_nodes path_graph -> v ∈ graph_nodes path_graph ->
       exists b, Partition_crosses_parts root (u, v) st1 = (Ok b, st1)).
Proof.
  destruct scenario_root_reachable as (root & st1 & Hroot & Hreach).
  exists root, st1. split; [done|].
  apply (reachable_lookups path_graph st1 root). done.
Defined.


Lemma update_error_is_an_updater_error_witness :
  exists root st1 e st',
    build_root (Some [("size", size_from_parts)]) = (Ok root, st1) /\
    Partition_update root st1 = (Raise e, st') /\
    exists name f cache_k before,
      dict_get (updaters root) name = Some f /\
      f st' (set_cache (pdata root) cache_k) = Raise e /\
      st_calls st' = (st_calls st1 ++ before ++ [(p_id (pdata root), name)])%list /\
      st_dicts st' = st_dicts st1.
Proof.
  assert (exists root st1 e st',
            build_root (Some [("size", size_from_parts)]) = (Ok root, st1) /\
            Partition_update root st1 = (Raise e, st'))
    as (root & st1 & e & st' & Hroot & Hup).
  { eexists _, _, _, _. split; vm_compute; reflexivity. }
  exists root, st1, e, st'. split; [done|]. split; [done|].
  apply (update_error_is_an_updater_error root st1 e st'). exact Hup.
Defined.

Lemma root_parts_are_the_labels_witness :
  exists root st1,
    build_root None = (Ok root, st1) /\
    parts (pdata root) = PartsKeys (dict_keys (level_sets initial_assignment)) /\
    dict_keys (parts_of st1 root) = dict_keys (level_sets initial_assignment) /\
    Partition_len (pdata root) = length (dict_keys (level_sets initial_assignment)) /\
    NoDup (dict_keys (level_sets initial_assignment)) /\
    (forall p, p ∈ dict_keys (level_sets initial_assignment) <->
               exists n, (n, p) ∈ initial_assignment).
Proof.
  assert (exists root st1, build_root None = (Ok root, st1))
    as (root & st1 & Hroot) by (eexists _, _; vm_compute; reflexivity).
  exists root, st1. split; [done|].
  apply (root_parts_are_the_labels (Some path_graph) initial_assignment None
           empty_store root st1).
  exact Hroot.
Defined.

Lemma reachable_parts_are_the_labels_witness :
  exists (root : Partition nat string SizeValue) st1,
    reachable path_graph st1 root /\
    parts (pdata root) = PartsKeys (dict_keys (parts_of st1 root)) /\
    Partition_len (pdata root) = length (dict_keys (parts_of st1 root)).
Proof.
  destruct scenario_root_reachable as (root & st1 & Hroot & Hreach).
  exists root, st1. split; [done|].
  apply (reachable_parts_are_the_labels path_graph st1 root). done.
Defined.

Lemma scenario_child_built :
  exists root st1 child st2,
    build_root None = (Ok root, st1) /\
    reachable path_graph st1 root /\
    Partition_merge root flip_2_to_B st1 = (Ok child, st2).
Proof.
  eexists _, _, _, _. split; [vm_compute; reflexivity|]. split.
  - eapply (reach_root path_graph initial_assignment None empty_store).
    + apply initial_assignment_NoDup.
    + done.
    + vm_compute. reflexivity.
  - vm_compute. reflexivity.
Qed.

Lemma merge_records_its_delta_witness :
  exists (root : Partition nat string SizeValue) st1
         (child : Partition nat string SizeValue) st2,
    allocated st1 (assignment (pdata root)) /\
    Partition_merge root flip_2_to_B st1 = (Ok child, st2) /\
    parent (pdata child) = Some (pdata root) /\
    flips (pdata child) = Some flip_2_to_B /\
    graph (pdata child) = graph (pdata root) /\
    parts (pdata child) = parts (pdata root) /\
    updaters child = updaters root /\
    exists fls nid nid',
      flows (pdata child) = Some fls /\
      flows_on (parts_of st1 root) flip_2_to_B [] = Ok fls /\
      apply_flows_on fls (parts_of st1 root) nid = (Ok tt, parts_of st2 child, nid').
Proof.
  destruct scenario_child_built as (root & st1 & child & st2 & Hroot & Hreach & Hmerge).
  destruct (reachable_inv _ _ _ Hreach) as (Halloc & _).
  exists root, st1, child, st2. split; [done|]. split; [done|].
  apply (merge_records_its_delta root flip_2_to_B st1 child st2); done.
Defined.

Lemma merge_shares_untouched_parts_witness :
  exists root st1 child st2,
    build_root None = (Ok root, st1) /\
    Partition_merge root [(2, "A")] st1 = (Ok child, st2) /\
    (forall n t, (n, t) ∈ [(2, "A")] ->
       find_part (parts_of st1 root) n = Some t \/
       (find_part (parts_of st1 root) n <> Some "B" /\ t <> "B")) /\
    dict_get (parts_of st2 child) "B" = dict_get (parts_of st1 root) "B".
Proof.
  assert (exists root st1 child st2,
            build_root None = (Ok root, st1) /\
            Partition_merge root [(2, "A")] st1 = (Ok child, st2) /\
            find_part (parts_of st1 root) 2 = Some "A")
    as (root & st1 & child & st2 & Hroot & Hmerge & Hfind).
  { eexists _, _, _, _. split_and!; vm_compute; reflexivity. }
  assert (forall n t, (n, t) ∈ [(2, "A")] ->
            find_part (parts_of st1 root) n = Some t \/
            (find_part (parts_of st1 root) n <> Some "B" /\ t <> "B")) as Hun.
  { intros n t [= -> ->]%list_elem_of_singleton. by left. }
  exists root, st1, child, st2. split; [done|]. split; [done|]. split; [done|].
  apply (merge_shares_untouched_parts root [(2, "A")] st1 child st2 "B"); done.
Defined.
